(** * tempdownloads: encrypted object storage pipeline and token codec

    A shallow embedding of
    - [utils/fileValidation.js]      (magic-number table, [validateBuffer]),
    - the "Encryption Utility"       ([PARSED_KEYS], [PARSED_IV], [encrypt], [decrypt]),
    - [LocalStorageStrategy]         ([_parseKey], [saveLocalStream], [delete], [getStream]),
    together with the parts of the Node runtime these functions call
    ([Buffer] conversions, [String.prototype.split], the AES-256-GCM cipher
    objects, byte-mode stream stages).

    Conventions.
    - A [Buffer] is a [list byte]; a JavaScript string is the list of its
      UTF-16 code units ([jsstring]).
    - A call that may throw returns [result]; [Throw e] is the exception.
    - AES-256-GCM is modelled by its structure: counter-mode encryption is
      the XOR of the data with a key/nonce dependent key stream, and the
      tag is a function of key, nonce and ciphertext.  The key stream, the
      tag function and SHA-256 are the members of the class [Crypto], the
      JSON built-ins those of the class [Json]; nothing is assumed about
      them except where a theorem names a law as a hypothesis. *)

From Stdlib Require Import NArith List Lia Bool.
From Stdlib Require Import Strings.Byte.
From stdpp Require Import base option list strings gmap.

Local Open Scope N_scope.

(** ** Buffers and strings *)

Abbreviation byte := Byte.byte.
Definition code_unit := N.
Definition jsstring := list code_unit.

#[global] Instance byte_eq_dec : EqDecision byte := Byte.byte_eq_dec.

(** Exceptions the modelled code can raise. *)
Inductive error : Type :=
| InvalidKeyLength          (* createCipheriv / createDecipheriv: key is not 32 bytes *)
| InvalidIV                 (* createCipheriv / createDecipheriv: empty nonce *)
| InvalidAuthTagLength      (* setAuthTag: tag length not accepted for GCM *)
| AuthenticationFailed      (* decipher.final(): tag mismatch *)
| SyntaxError               (* JSON.parse *)
| TypeError                 (* property access on undefined; invalid argument value *)
| MagicByteMismatch         (* 'Invalid file signature (Magic Byte Mismatch). ...' *)
| FileCorruptedTooSmall     (* 'File corrupted: Too small for encrypted container' *)
| ENOENT                    (* stat / open / unlink on a missing file *)
| UncaughtException (e : error).
                            (* [e] emitted as 'error' by a stream nobody listens to yet:
                               it reaches no promise and no listener but the process's
                               'uncaughtException' handler *)

Inductive result (A : Type) : Type :=
| Ok (a : A)
| Throw (e : error).
Arguments Ok {A} a.
Arguments Throw {A} e.

Definition bind {A B} (r : result A) (k : A -> result B) : result B :=
  match r with
  | Ok a => k a
  | Throw e => Throw e
  end.

Notation "'let?' x ':=' r 'in' k" := (bind r (fun x => k))
  (at level 10, x pattern, r at level 100, k at level 200).

Module Buffer.

(** Bitwise XOR of two octets. *)
Definition bxor (a b : byte) : byte :=
  default Byte.x00 (Byte.of_N (N.lxor (Byte.to_N a) (Byte.to_N b))).

(** Octet with value [n mod 256]. *)
Definition octet (n : N) : byte :=
  default Byte.x00 (Byte.of_N (n mod 256)).

(** [buf.toString('hex')]: two lowercase digits per octet. *)
Definition hex_digit (n : N) : code_unit :=
  if n <? 10 then 48 + n else 87 + n.

Definition toString_hex (b : list byte) : jsstring :=
  flat_map (fun x => [hex_digit (Byte.to_N x / 16); hex_digit (Byte.to_N x mod 16)]) b.

(** Value of a hexadecimal digit, either case. *)
Definition unhex (c : code_unit) : option N :=
  if (48 <=? c) && (c <=? 57) then Some (c - 48)
  else if (97 <=? c) && (c <=? 102) then Some (c - 87)
  else if (65 <=? c) && (c <=? 70) then Some (c - 55)
  else None.

(** [Buffer.from(s, 'hex')]: decodes digit pairs and stops, without
    raising, at the first pair that is not hexadecimal; a trailing
    single character is dropped. *)
Fixpoint from_hex (s : jsstring) : list byte :=
  match s with
  | a :: b :: rest =>
      match unhex a, unhex b with
      | Some h, Some l => octet (16 * h + l) :: from_hex rest
      | _, _ => []
      end
  | _ => []
  end.

Definition is_high_surrogate (c : code_unit) : bool := (0xD800 <=? c) && (c <? 0xDC00).
Definition is_low_surrogate (c : code_unit) : bool := (0xDC00 <=? c) && (c <? 0xE000).

Definition utf8_2 (c : N) : list byte :=
  [octet (0xC0 + c / 64); octet (0x80 + c mod 64)].
Definition utf8_3 (c : N) : list byte :=
  [octet (0xE0 + c / 4096); octet (0x80 + (c / 64) mod 64); octet (0x80 + c mod 64)].
Definition utf8_4 (c : N) : list byte :=
  [octet (0xF0 + c / 262144); octet (0x80 + (c / 4096) mod 64);
   octet (0x80 + (c / 64) mod 64); octet (0x80 + c mod 64)].

(** [Buffer.from(s)] / [Buffer.from(s, 'utf8')]: UTF-8 of the string; a
    surrogate pair is one 4-byte sequence, an unpaired surrogate becomes
    U+FFFD. *)
Fixpoint from_utf8 (s : jsstring) : list byte :=
  match s with
  | [] => []
  | c :: rest =>
      if c <? 0x80 then octet c :: from_utf8 rest
      else if c <? 0x800 then utf8_2 c ++ from_utf8 rest
      else if is_high_surrogate c then
        match rest with
        | d :: rest' =>
            if is_low_surrogate d
            then utf8_4 (0x10000 + (c - 0xD800) * 1024 + (d - 0xDC00)) ++ from_utf8 rest'
            else utf8_3 0xFFFD ++ from_utf8 rest
        | [] => utf8_3 0xFFFD
        end
      else if is_low_surrogate c then utf8_3 0xFFFD ++ from_utf8 rest
      else utf8_3 c ++ from_utf8 rest
  end.

End Buffer.

Module JsString.

(** [s.split(sep)] for a one-character separator: the fields between
    the separators, always at least one. *)
Fixpoint split (sep : code_unit) (s : jsstring) : list jsstring :=
  match s with
  | [] => [[]]
  | c :: rest =>
      if c =? sep then [] :: split sep rest
      else match split sep rest with
           | f :: fs => (c :: f) :: fs
           | [] => [[c]]
           end
  end.

(** [s.padEnd(n)]: pads with spaces up to [n] code units. *)
Definition padEnd (n : nat) (s : jsstring) : jsstring :=
  s ++ replicate (n - length s) 32.

(** [s.slice(0, n)] *)
Definition slice0 (n : nat) (s : jsstring) : jsstring := take n s.

Definition is_hex_digit (c : code_unit) : bool :=
  ((48 <=? c) && (c <=? 57)) || ((97 <=? c) && (c <=? 102)) || ((65 <=? c) && (c <=? 70)).

(** [/^[0-9a-fA-F]+$/.test(s)] *)
Definition test_hex (s : jsstring) : bool :=
  negb (bool_decide (s = [])) && forallb is_hex_digit s.

Definition colon : code_unit := 58.

End JsString.

(** ** The runtime the program is linked against *)

(** Cryptographic built-ins.  [ctr_keystream key iv i] is octet [i] of
    the AES-256 counter-mode key stream for this key and nonce,
    [gcm_tag key iv ct] the full GCM authentication tag of ciphertext
    [ct], and [sha256] the digest function. *)
Class Crypto : Type := {
  ctr_keystream : list byte -> list byte -> nat -> byte;
  gcm_tag : list byte -> list byte -> list byte -> list byte;
  sha256 : list byte -> list byte
}.

(** JSON built-ins and UTF-8 decoding.  [payload] is the type of JSON
    values, [null] the value failures are reported with. *)
Class Json : Type := {
  payload : Type;
  null : payload;
  JSON_stringify : payload -> jsstring;
  JSON_parse : jsstring -> result payload;
  toString_utf8 : list byte -> jsstring
}.

(** Laws of the built-ins that theorems name as hypotheses. *)

(** GCM tags are 128 bits (no [authTagLength] option is passed). *)
Definition tag_is_128_bits `{Crypto} : Prop :=
  forall key iv ct, length (gcm_tag key iv ct) = 16%nat.

(** [JSON.parse] inverts [JSON.stringify], and the text produced by
    [JSON.stringify] survives UTF-8 encoding and decoding. *)
Definition json_round_trip `{Json} : Prop :=
  forall p, JSON_parse (JSON_stringify p) = Ok p
         /\ toString_utf8 (Buffer.from_utf8 (JSON_stringify p)) = JSON_stringify p.

(** A key as handed to [createCipheriv]: a [Buffer] or a string (which
    Node encodes as UTF-8). *)
Inductive key_material : Type :=
| KeyBuffer (b : list byte)
| KeyString (s : jsstring).

Definition key_bytes (k : key_material) : list byte :=
  match k with
  | KeyBuffer b => b
  | KeyString s => Buffer.from_utf8 s
  end.

(** ** [crypto]: AES-256-GCM cipher objects *)
Module Gcm.
Section Gcm.
Context `{Crypto}.

(** Counter mode: XOR with the key stream from position [pos] on. *)
Definition xor_stream (key iv : list byte) (pos : nat) (data : list byte) : list byte :=
  imap (fun i b => Buffer.bxor b (ctr_keystream key iv (pos + i))) data.

(** A [Cipher]: key, nonce and the ciphertext produced so far. *)
Record cipher : Type := {
  c_key : list byte;
  c_iv : list byte;
  c_out : list byte
}.

(** [crypto.createCipheriv('aes-256-gcm', key, iv)] *)
Definition createCipheriv (key : option key_material) (iv : list byte) : result cipher :=
  match key with
  | None => Throw TypeError
  | Some k =>
      if bool_decide (length iv = 0%nat) then Throw InvalidIV
      else if bool_decide (length (key_bytes k) = 32%nat)
      then Ok {| c_key := key_bytes k; c_iv := iv; c_out := [] |}
      else Throw InvalidKeyLength
  end.

(** [cipher.update(data)]: the ciphertext of [data], same length. *)
Definition update (c : cipher) (data : list byte) : cipher * list byte :=
  let ct := xor_stream (c_key c) (c_iv c) (length (c_out c)) data in
  ({| c_key := c_key c; c_iv := c_iv c; c_out := c_out c ++ ct |}, ct).

(** [cipher.final()]: GCM has no padding, nothing is left to emit. *)
Definition final (c : cipher) : list byte := [].

(** [cipher.getAuthTag()] *)
Definition getAuthTag (c : cipher) : list byte :=
  gcm_tag (c_key c) (c_iv c) (c_out c).

(** A [Decipher]: key, nonce, expected tag and ciphertext consumed so far. *)
Record decipher : Type := {
  d_key : list byte;
  d_iv : list byte;
  d_tag : option (list byte);
  d_in : list byte
}.

(** [crypto.createDecipheriv('aes-256-gcm', key, iv)] *)
Definition createDecipheriv (key : option key_material) (iv : list byte) : result decipher :=
  match key with
  | None => Throw TypeError
  | Some k =>
      if bool_decide (length iv = 0%nat) then Throw InvalidIV
      else if bool_decide (length (key_bytes k) = 32%nat)
      then Ok {| d_key := key_bytes k; d_iv := iv; d_tag := None; d_in := [] |}
      else Throw InvalidKeyLength
  end.

(** Tag lengths GCM accepts. *)
Definition valid_gcm_tag_length (n : nat) : bool :=
  bool_decide (n ∈ [4; 8; 12; 13; 14; 15; 16]%nat).

(** [decipher.setAuthTag(tag)] *)
Definition setAuthTag (d : decipher) (tag : list byte) : result decipher :=
  if valid_gcm_tag_length (length tag)
  then Ok {| d_key := d_key d; d_iv := d_iv d; d_tag := Some tag; d_in := d_in d |}
  else Throw InvalidAuthTagLength.

(** [decipher.update(data)]: plaintext is released before the tag is checked. *)
Definition dupdate (d : decipher) (data : list byte) : decipher * list byte :=
  let pt := xor_stream (d_key d) (d_iv d) (length (d_in d)) data in
  ({| d_key := d_key d; d_iv := d_iv d; d_tag := d_tag d; d_in := d_in d ++ data |}, pt).

(** [decipher.final()]: compares the expected tag with the tag of the
    ciphertext consumed, over the length of the expected tag. *)
Definition dfinal (d : decipher) : result (list byte) :=
  match d_tag d with
  | Some tag =>
      if bool_decide (tag = take (length tag) (gcm_tag (d_key d) (d_iv d) (d_in d)))
      then Ok []
      else Throw AuthenticationFailed
  | None => Throw AuthenticationFailed
  end.

End Gcm.
End Gcm.

(** ** [utils/fileValidation.js] *)
Module FileValidation.

(** The keys of [MAGIC_NUMBERS]. *)
Inductive ext : Type := jpg | png | gif | pdf | zip | _7z.

(** [MAGIC_NUMBERS], in the order [Object.entries] enumerates it. *)
Definition MAGIC_NUMBERS : list (ext * list byte) :=
  [ (jpg, [Byte.xff; Byte.xd8; Byte.xff]);
    (png, [Byte.x89; Byte.x50; Byte.x4e; Byte.x47]);
    (gif, [Byte.x47; Byte.x49; Byte.x46; Byte.x38]);
    (pdf, [Byte.x25; Byte.x50; Byte.x44; Byte.x46]);
    (zip, [Byte.x50; Byte.x4b; Byte.x03; Byte.x04]);
    (_7z, [Byte.x37; Byte.x7a; Byte.xbc; Byte.xaf]) ].

(** The inner loop: [buffer[i] !== numbers[i]] for no [i < numbers.length]. *)
Definition signature_matches (buffer numbers : list byte) : bool :=
  forallb (fun i => bool_decide (buffer !! i = numbers !! i)) (seq 0 (length numbers)).

(** [validateBuffer(buffer)]: the first matching entry, [None] for [null]. *)
Definition validateBuffer (buffer : list byte) : option ext :=
  if bool_decide (length buffer < 4)%nat then None
  else fst <$> List.find (fun entry => signature_matches buffer (snd entry)) MAGIC_NUMBERS.

End FileValidation.

(** ** [config/index.js]: the part of the configuration consumed here *)
Record config : Type := {
  encryptionKeys : list jsstring;   (* config.security.encryptionKeys *)
  encryptionIv : jsstring           (* config.security.encryptionIv *)
}.

(** ** Encryption Utility: download tokens *)
Module Encryption.
Section Encryption.
Context `{Crypto} `{Json}.
Variable cfg : config.

(** The function [PARSED_KEYS] maps over the configured keys: a
    64-digit hexadecimal key becomes a [Buffer], any other key is kept
    as the string it is. *)
Definition parsed_key (key : jsstring) : key_material :=
  if JsString.test_hex key && bool_decide (length key = 64%nat)
  then KeyBuffer (Buffer.from_hex key)
  else KeyString key.

(** [PARSED_KEYS] *)
Definition PARSED_KEYS : list key_material :=
  map parsed_key (encryptionKeys cfg).

(** [PARSED_IV] *)
Definition PARSED_IV : jsstring := encryptionIv cfg.

(** [encrypt(payload)] *)
Definition encrypt (p : payload) : result jsstring :=
  let text := JSON_stringify p in
  let iv := Buffer.from_utf8 PARSED_IV in
  let key := PARSED_KEYS !! 0%nat in
  let? cipher := Gcm.createCipheriv key iv in
  let '(cipher, out) := Gcm.update cipher (Buffer.from_utf8 text) in
  let encrypted := Buffer.toString_hex out ++ Buffer.toString_hex (Gcm.final cipher) in
  let authTag := Buffer.toString_hex (Gcm.getAuthTag cipher) in
  Ok (Buffer.toString_hex iv ++ [JsString.colon] ++ authTag ++ [JsString.colon] ++ encrypted).

(** The body of the inner [try] for one key.
    [decipher.update(encryptedHex, 'hex', 'utf8')] validates its string
    argument before decoding it: hexadecimal text of odd length is
    refused with a [TypeError] ([ERR_INVALID_ARG_VALUE]); text of even
    length is decoded as [Buffer.from(_, 'hex')] decodes it. *)
Definition decrypt_with (key : key_material) (iv authTag : list byte)
    (encryptedHex : jsstring) : result payload :=
  let? decipher := Gcm.createDecipheriv (Some key) iv in
  let? decipher := Gcm.setAuthTag decipher authTag in
  if bool_decide (length encryptedHex mod 2 <> 0)%nat then Throw TypeError
  else
    let '(decipher, out) := Gcm.dupdate decipher (Buffer.from_hex encryptedHex) in
    let? rest := Gcm.dfinal decipher in
    JSON_parse (toString_utf8 (out ++ rest)).

(** [for (const key of PARSED_KEYS) { try { ...; return ... } catch { continue } }],
    falling through to [return null]. *)
Fixpoint decrypt_loop (keys : list key_material) (iv authTag : list byte)
    (encryptedHex : jsstring) : payload :=
  match keys with
  | [] => null
  | key :: keys' =>
      match decrypt_with key iv authTag encryptedHex with
      | Ok p => p
      | Throw _ => decrypt_loop keys' iv authTag encryptedHex
      end
  end.

(** [decrypt(token)] *)
Definition decrypt (token : jsstring) : payload :=
  match JsString.split JsString.colon token with
  | [ivHex; authTagHex; encryptedHex] =>
      let iv := Buffer.from_hex ivHex in
      let authTag := Buffer.from_hex authTagHex in
      decrypt_loop PARSED_KEYS iv authTag encryptedHex
  | _ => null
  end.

End Encryption.
End Encryption.

(** ** The world outside the process: files, entropy, scheduling *)
Record world : Type := {
  files : gmap jsstring (list byte);   (* the upload directory, by file name *)
  entropy : nat -> byte;               (* the octets the CSPRNG will deliver *)
  drawn : nat;                         (* how many of them were delivered *)
  flushed : nat                        (* how many of the octets handed to a file write
                                          stream are in the file when the stream is
                                          destroyed: [fs] writes asynchronously *)
}.

(** [crypto.randomBytes(n)] *)
Definition randomBytes (n : nat) (w : world) : list byte * world :=
  (map (entropy w) (seq (drawn w) n),
   {| files := files w; entropy := entropy w; drawn := (drawn w + n)%nat;
      flushed := flushed w |}).

Definition with_files (w : world) (fs : gmap jsstring (list byte)) : world :=
  {| files := fs; entropy := entropy w; drawn := drawn w; flushed := flushed w |}.

(** What a consumer of a readable stream observes: the octets of the
    ['data'] events, then ['end'] ([None]) or ['error'] ([Some e]).
    With [Some (UncaughtException e)] the consumer observes neither
    ['end'] nor ['error']: the stream failed with [e] and was destroyed
    before the consumer could listen. *)
Record observed : Type := {
  emitted : list byte;
  failure : option error
}.

(** ** [LocalStorageStrategy] *)
Module LocalStorageStrategy.
Section LocalStorageStrategy.
Context `{Crypto}.

(** The fields of an instance ([algorithm] is always ['aes-256-gcm'];
    [uploadDir] is the directory [files] stands for). *)
Record this : Type := {
  key : list byte;
  ivLength : nat;
  tagLength : nat
}.

(** [_parseKey(key)] *)
Definition _parseKey (k : key_material) : list byte :=
  match k with
  | KeyBuffer b => b
  | KeyString s =>
      if bool_decide (length s = 64%nat) then Buffer.from_hex s
      else Buffer.from_utf8 (JsString.slice0 32 (JsString.padEnd 32 s))
  end.

(** [constructor()]: reading [.length] of a missing first key throws. *)
Definition constructor (cfg : config) : result this :=
  match encryptionKeys cfg !! 0%nat with
  | Some k => Ok {| key := _parseKey (KeyString k); ivLength := 16; tagLength := 16 |}
  | None => Throw TypeError
  end.

Definition MAGIC_CHECK_SIZE : nat := 4.

(** The variables the [validator] closure captures. *)
Record validator : Type := {
  hash : list byte;                 (* everything fed to [hash.update] *)
  isValidated : bool;
  magicBuffer : list byte;
  validationError : option error
}.

(** [validator.transform(chunk)]: the state after the call and either
    the chunk handed to [callback(null, chunk)] or the error handed to
    [callback(validationError)]. *)
Definition validator_transform (chunk : list byte) (v : validator)
    : validator * result (list byte) :=
  let hash' := hash v ++ chunk in
  if negb (isValidated v) then
    let magicBuffer' := magicBuffer v ++ chunk in
    if bool_decide (MAGIC_CHECK_SIZE <= length magicBuffer')%nat then
      match FileValidation.validateBuffer magicBuffer' with
      | None =>
          ({| hash := hash'; isValidated := false; magicBuffer := magicBuffer';
              validationError := Some MagicByteMismatch |},
           Throw MagicByteMismatch)
      | Some _ =>
          ({| hash := hash'; isValidated := true; magicBuffer := magicBuffer';
              validationError := validationError v |},
           Ok chunk)
      end
    else
      ({| hash := hash'; isValidated := false; magicBuffer := magicBuffer';
          validationError := validationError v |},
       Ok chunk)
  else
    ({| hash := hash'; isValidated := true; magicBuffer := magicBuffer v;
        validationError := validationError v |},
     Ok chunk).

(** [readable.push(chunk)] in byte mode forwards nothing for an empty chunk. *)
Definition push (chunk : list byte) : list (list byte) :=
  if bool_decide (chunk = []) then [] else [chunk].

(** [containerizer.transform(chunk)]: the new [ivPushed] and the chunks pushed. *)
Definition containerizer_transform (iv chunk : list byte) (ivPushed : bool)
    : bool * list (list byte) :=
  (true, (if ivPushed then [] else push iv) ++ push chunk).

(** [containerizer.flush()] *)
Definition containerizer_flush (iv : list byte) (c : Gcm.cipher) (ivPushed : bool)
    : bool * list (list byte) :=
  let tag := Gcm.getAuthTag c in
  (true, (if ivPushed then [] else push iv) ++ push tag).

(** The stages of one [pipeline(inputStream, validator, cipher,
    containerizer, fs.createWriteStream(filePath))]. *)
Record stages : Type := {
  st_validator : validator;
  st_cipher : Gcm.cipher;
  st_ivPushed : bool;
  st_written : list byte            (* what has been handed to the write stream *)
}.

Definition set_validator (v : validator) (s : stages) : stages :=
  {| st_validator := v; st_cipher := st_cipher s;
     st_ivPushed := st_ivPushed s; st_written := st_written s |}.

Definition set_cipher (c : Gcm.cipher) (s : stages) : stages :=
  {| st_validator := st_validator s; st_cipher := c;
     st_ivPushed := st_ivPushed s; st_written := st_written s |}.

(** The containerizer receives chunks; what it pushes is handed to the
    write stream. *)
Definition through_containerizer (iv : list byte) (chunks : list (list byte))
    (s : stages) : stages :=
  foldl (fun s chunk =>
           let '(ivPushed, outs) := containerizer_transform iv chunk (st_ivPushed s) in
           {| st_validator := st_validator s; st_cipher := st_cipher s;
              st_ivPushed := ivPushed; st_written := st_written s ++ concat outs |})
        s chunks.

(** The cipher receives chunks and pushes [cipher.update(chunk)] on. *)
Definition through_cipher (iv : list byte) (chunks : list (list byte))
    (s : stages) : stages :=
  foldl (fun s chunk =>
           let '(c, ct) := Gcm.update (st_cipher s) chunk in
           through_containerizer iv (push ct) (set_cipher c s))
        s chunks.

(** One source chunk through all stages; [Some e] when a stage fails. *)
Definition on_data (iv chunk : list byte) (s : stages) : stages * option error :=
  match validator_transform chunk (st_validator s) with
  | (v, Throw e) => (set_validator v s, Some e)
  | (v, Ok out) => (through_cipher iv (push out) (set_validator v s), None)
  end.

(** End of the source: the cipher pushes [cipher.final()] and ends,
    then the containerizer flushes. *)
Definition on_end (iv : list byte) (s : stages) : stages :=
  let s := through_containerizer iv (push (Gcm.final (st_cipher s))) s in
  let '(ivPushed, outs) := containerizer_flush iv (st_cipher s) (st_ivPushed s) in
  {| st_validator := st_validator s; st_cipher := st_cipher s;
     st_ivPushed := ivPushed; st_written := st_written s ++ concat outs |}.

(** The whole pipeline over the chunks of the source, stopping at the
    first failure. *)
Fixpoint pipeline (iv : list byte) (chunks : list (list byte)) (s : stages)
    : stages * option error :=
  match chunks with
  | [] => (on_end iv s, None)
  | chunk :: chunks' =>
      match on_data iv chunk s with
      | (s', Some e) => (s', Some e)
      | (s', None) => pipeline iv chunks' s'
      end
  end.

Definition initial_stages (c : Gcm.cipher) : stages :=
  {| st_validator := {| hash := []; isValidated := false; magicBuffer := [];
                        validationError := None |};
     st_cipher := c; st_ivPushed := false; st_written := [] |}.

(** [delete(filename)]: [true] when the file was unlinked. *)
Definition delete (filename : jsstring) (w : world) : bool * world :=
  match files w !! filename with
  | Some _ => (true, with_files w (base.delete filename (files w)))
  | None => (false, w)
  end.

(** The value [saveLocalStream] resolves with. *)
Record saved : Type := {
  checksum : jsstring;
  isEncrypted : bool
}.

(** What the file of [fs.createWriteStream(filePath)] holds when
    [pipeline] settles.  The write stream creates the file and writes
    asynchronously.  A pipeline that resolves has waited for the write
    stream to finish: the file holds all that was handed to it.  A
    pipeline that rejects destroys the write stream, which drops the
    writes still pending: the file holds only the octets that were
    written by then, a prefix of [st_written] that the scheduling
    decides. *)
Definition file_when_settled (w : world) (s : stages) (err : option error) : list byte :=
  match err with
  | None => st_written s
  | Some _ => take (flushed w) (st_written s)
  end.

(** The part of [saveLocalStream] inside [try], up to the point where
    [pipeline] settles: the nonce is drawn, the cipher created, the
    file created and filled by the write stream.  Returns the stages
    as the pipeline left them with the error it rejected with, if any. *)
Definition run_pipeline (self : this) (inputStream : list (list byte))
    (filename : jsstring) (w : world) : result (stages * option error) * world :=
  let '(iv, w) := randomBytes (ivLength self) w in
  match Gcm.createCipheriv (Some (KeyBuffer (key self))) iv with
  | Throw e => (Throw e, w)
  | Ok cipher =>
      let '(s, err) := pipeline iv inputStream (initial_stages cipher) in
      (Ok (s, err), with_files w (<[filename := file_when_settled w s err]> (files w)))
  end.

(** [saveLocalStream(inputStream, filename, mimeType)]; the source is
    given by its chunks. *)
Definition saveLocalStream (self : this) (inputStream : list (list byte))
    (filename : jsstring) (w : world) : result saved * world :=
  match run_pipeline self inputStream filename w with
  | (Throw e, w) => (Throw e, w)
  | (Ok (s, None), w) =>
      (Ok {| checksum := Buffer.toString_hex (sha256 (hash (st_validator s)));
             isEncrypted := true |}, w)
  | (Ok (s, Some err), w) =>
      let '(_, w) := delete filename w in
      (Throw (default err (validationError (st_validator s))), w)
  end.

(** [getStats(filename)] *)
Definition getStats (filename : jsstring) (w : world) : result nat :=
  match files w !! filename with
  | Some content => Ok (length content)
  | None => Throw ENOENT
  end.

(** [fd.read(buffer, 0, length, position)] on a file with this content. *)
Definition fd_read (content : list byte) (len position : nat) : list byte :=
  take len (drop position content).

(** [fs.createReadStream(filePath, { start, end })], [end] inclusive.
    The range is delivered as one chunk; how Node cuts it into chunks
    makes no difference to what the decipher emits ([flow_chunks]). *)
Definition createReadStream (content : list byte) (start end_ : nat) : list (list byte) :=
  push (take (end_ + 1 - start) (drop start content)).

(** The chunks of a source flowing through a decipher: every chunk
    goes through [update], the end of the source through [final]. *)
Fixpoint flow (chunks : list (list byte)) (d : Gcm.decipher) : observed :=
  match chunks with
  | [] =>
      match Gcm.dfinal d with
      | Ok rest => {| emitted := rest; failure := None |}
      | Throw e => {| emitted := []; failure := Some e |}
      end
  | chunk :: chunks' =>
      let '(d, out) := Gcm.dupdate d chunk in
      let o := flow chunks' d in
      {| emitted := out ++ emitted o; failure := failure o |}
  end.

(** [readable.pipe(decipher)] as the result of [getStream], which hands
    the decipher to its caller only after [await fd.close()] in the
    [finally] block.  A source without chunks ([Readable.from([])]) has
    ended by then and the decipher has run [final()]: a failure finds no
    listener, surfaces as the process's ['uncaughtException'] and leaves
    the caller a destroyed stream.  The chunks of a file range arrive
    after the caller has the stream. *)
Definition pipe (chunks : list (list byte)) (d : Gcm.decipher) : observed :=
  match chunks with
  | [] =>
      let o := flow [] d in
      {| emitted := emitted o; failure := option_map UncaughtException (failure o) |}
  | _ :: _ => flow chunks d
  end.

(** [getStream(filename)] *)
Definition getStream (self : this) (filename : jsstring) (w : world) : result observed :=
  let? fileSize := getStats filename w in
  if bool_decide (fileSize < ivLength self + tagLength self)%nat
  then Throw FileCorruptedTooSmall
  else
    match files w !! filename with
    | None => Throw ENOENT
    | Some content =>
        let iv := fd_read content (ivLength self) 0 in
        let tagPosition := (fileSize - tagLength self)%nat in
        let tag := fd_read content (tagLength self) tagPosition in
        let? decipher := Gcm.createDecipheriv (Some (KeyBuffer (key self))) iv in
        let? decipher := Gcm.setAuthTag decipher tag in
        let contentSize := (tagPosition - ivLength self)%nat in
        if bool_decide (contentSize = 0%nat)
        then Ok (pipe [] decipher)
        else Ok (pipe (createReadStream content (ivLength self) (tagPosition - 1)) decipher)
    end.

End LocalStorageStrategy.
End LocalStorageStrategy.

(** ** A small runtime for concrete runs

    An instance of [Crypto] and [Json] on which the program can be
    evaluated: a key stream and a tag that mix key, nonce and position
    with XOR, and JSON restricted to the literals [null], [true] and
    [false].  It stands for no real cipher; it only makes the examples
    below computable. *)
Module Sample.

(** The code units of an ASCII literal. *)
Definition js (s : string) : jsstring :=
  map Byte.to_N (String.list_byte_of_string s).

Definition at_ (l : list byte) (i : nat) : byte := nth i l Byte.x00.

Definition keystream (key iv : list byte) (i : nat) : byte :=
  Buffer.bxor (at_ key (i mod 32)) (Buffer.bxor (at_ iv (i mod 16)) (Buffer.octet (N.of_nat i))).

Definition tag (key iv ct : list byte) : list byte :=
  map (fun i => Buffer.bxor (at_ key i) (Buffer.bxor (at_ iv i) (foldr Buffer.bxor Byte.x2a ct)))
      (seq 0 16).

Definition digest (m : list byte) : list byte :=
  replicate 31 (foldr Buffer.bxor Byte.x00 m) ++ [Buffer.octet (N.of_nat (length m))].

Definition crypto : Crypto :=
  {| ctr_keystream := keystream; gcm_tag := tag; sha256 := digest |}.

Inductive literal : Type := LNull | LTrue | LFalse.

Definition stringify (v : literal) : jsstring :=
  match v with
  | LNull => js "null"
  | LTrue => js "true"
  | LFalse => js "false"
  end.

Definition parse (s : jsstring) : result literal :=
  if bool_decide (s = js "null") then Ok LNull
  else if bool_decide (s = js "true") then Ok LTrue
  else if bool_decide (s = js "false") then Ok LFalse
  else Throw SyntaxError.

Definition json : Json :=
  {| payload := literal; null := LNull; JSON_stringify := stringify;
     JSON_parse := parse; toString_utf8 := map Byte.to_N |}.

(** A configuration with one 64-digit hexadecimal key. *)
Definition hex_key : jsstring :=
  js "000102030405060708090a0b0c0d0e0f101112131415161718191a1b1c1d1e1f".

Definition other_key : jsstring :=
  js "ff0102030405060708090a0b0c0d0e0f101112131415161718191a1b1c1d1e1f".

Definition cfg : config :=
  {| encryptionKeys := [hex_key]; encryptionIv := js "0123456789abcdef" |}.

(** The same configuration after a rotation: [other_key] is now current. *)
Definition cfg_rotated : config :=
  {| encryptionKeys := [other_key; hex_key]; encryptionIv := js "0123456789abcdef" |}.

(** The token [encrypt] returns for [true] under [cfg]. *)
Definition token : jsstring :=
  Eval vm_compute in
    match @Encryption.encrypt crypto json cfg LTrue with
    | Ok t => t
    | Throw _ => []
    end.

(** A world with an empty upload directory whose CSPRNG counts upwards
    and in which a destroyed write stream has written nothing yet. *)
Definition w0 : world :=
  {| files := ∅; entropy := fun i => Buffer.octet (N.of_nat (i + 1)); drawn := 0;
     flushed := 0 |}.

Definition name : jsstring := js "a1b2c3.bin".

(** The same world with a three-octet file under [name]. *)
Definition w_short : world :=
  with_files w0 {[ name := [Byte.x01; Byte.x02; Byte.x03] ]}.

(** The storage strategy constructed from [cfg]. *)
Definition self : LocalStorageStrategy.this :=
  {| LocalStorageStrategy.key :=
       LocalStorageStrategy._parseKey (KeyString hex_key);
     LocalStorageStrategy.ivLength := 16;
     LocalStorageStrategy.tagLength := 16 |}.

End Sample.

Local Close Scope N_scope.

(** ** Notions used in the statements *)
Module Spec.
Section Spec.
Context `{Crypto} `{Json}.

(** The first colon-separated field of a token. *)
Definition nonce_field (token : jsstring) : jsstring :=
  hd [] (JsString.split JsString.colon token).

(** [key] authenticates ciphertext [ct] under nonce [iv] and expected
    tag [tag]: the decipher can be created, accepts the tag, and
    [final()] finds the tags equal. *)
Definition authenticates (key : key_material) (iv tag ct : list byte) : bool :=
  negb (bool_decide (length iv = 0))
  && bool_decide (length (key_bytes key) = 32)
  && Gcm.valid_gcm_tag_length (length tag)
  && bool_decide (tag = take (length tag) (gcm_tag (key_bytes key) iv ct)).

(** The plaintext the cipher releases for [ct]. *)
Definition plaintext (key : key_material) (iv ct : list byte) : list byte :=
  Gcm.xor_stream (key_bytes key) iv 0 ct.

(** The stored object for plaintext [B] under [key] and nonce [iv]:
    nonce, ciphertext, tag. *)
Definition container (key iv B : list byte) : list byte :=
  let ct := Gcm.xor_stream key iv 0 B in
  iv ++ ct ++ gcm_tag key iv ct.

(** The nonce followed by the ciphertext of [consumed]: a container
    without its tag. *)
Definition iv_and_ciphertext (key iv consumed : list byte) : list byte :=
  iv ++ Gcm.xor_stream key iv 0 consumed.

(** What has been handed to the write stream once the octets
    [consumed] went through the stages and the source has not ended. *)
Definition partial_container (key iv consumed : list byte) : list byte :=
  if bool_decide (consumed = []) then []
  else iv ++ Gcm.xor_stream key iv 0 consumed.

(** The validator after the octets [consumed] went through it without
    a failure: undecided while fewer than four octets were seen,
    validated on an accepted signature afterwards. *)
Definition validator_after (consumed : list byte)
    (v : LocalStorageStrategy.validator) : Prop :=
  LocalStorageStrategy.hash v = consumed
  /\ LocalStorageStrategy.validationError v = None
  /\ if LocalStorageStrategy.isValidated v
     then 4 <= length consumed
          /\ is_Some (FileValidation.validateBuffer (take 4 consumed))
     else LocalStorageStrategy.magicBuffer v = consumed /\ length consumed < 4.

(** The stages behind the validator after it pushed the octets [consumed]. *)
Definition downstream_after (key iv consumed : list byte)
    (s : LocalStorageStrategy.stages) : Prop :=
  LocalStorageStrategy.st_cipher s
  = {| Gcm.c_key := key; Gcm.c_iv := iv;
       Gcm.c_out := Gcm.xor_stream key iv 0 consumed |}
  /\ LocalStorageStrategy.st_ivPushed s = negb (bool_decide (consumed = []))
  /\ LocalStorageStrategy.st_written s = partial_container key iv consumed.

(** All stages after the octets [consumed] went through without a failure. *)
Definition stages_after (key iv consumed : list byte)
    (s : LocalStorageStrategy.stages) : Prop :=
  validator_after consumed (LocalStorageStrategy.st_validator s)
  /\ downstream_after key iv consumed s.

End Spec.
End Spec.

(** ** What the storage operations amount to *)
Module Behaviour.
Section Behaviour.
Context `{Crypto}.

(** The write pipeline lets a source through when it has fewer than
    four octets or starts with an accepted signature. *)
Definition lets_through (B : list byte) : bool :=
  bool_decide (length B < 4)
  || bool_decide (is_Some (FileValidation.validateBuffer (take 4 B))).

(** The outcome of [saveLocalStream] in terms of the octets [B] of the
    source alone: the nonce is drawn; an unusable key is refused by the
    cipher; a source that is let through is stored as its container
    under the name; any other source leaves no file under the name. *)
Definition save_outcome (self : LocalStorageStrategy.this) (B : list byte)
    (filename : jsstring) (w : world) : result LocalStorageStrategy.saved * world :=
  let '(iv, w) := randomBytes 16 w in
  if bool_decide (length (LocalStorageStrategy.key self) = 32) then
    if lets_through B then
      (Ok {| LocalStorageStrategy.checksum := Buffer.toString_hex (sha256 B);
             LocalStorageStrategy.isEncrypted := true |},
       with_files w (<[filename := Spec.container (LocalStorageStrategy.key self) iv B]>
                       (files w)))
    else (Throw MagicByteMismatch, with_files w (base.delete filename (files w)))
  else (Throw InvalidKeyLength, w).

End Behaviour.

(** A lowercase hexadecimal digit, [0-9a-f]. *)
Definition is_lower_hex_digit (c : code_unit) : bool :=
  ((48 <=? c)%N && (c <=? 57)%N) || ((97 <=? c)%N && (c <=? 102)%N).

(** The octets of the third field of a token. *)
Definition ciphertext_field (token : jsstring) : list byte :=
  Buffer.from_hex (nth 2 (JsString.split JsString.colon token) []).

(** The text of a token with the given nonce, tag and ciphertext. *)
Definition token_of (iv tag ct : list byte) : jsstring :=
  Buffer.toString_hex iv ++ [JsString.colon] ++ Buffer.toString_hex tag
  ++ [JsString.colon] ++ Buffer.toString_hex ct.

End Behaviour.

(** ** Stream helper: the checksum verifier of downloads *)
Module StreamHelper.
Section StreamHelper.
Context `{Crypto}.

(** The variables the transform of [createChecksumVerifier] captures. *)
Record verifier : Type := {
  v_hash : list byte;               (* everything fed to [hash.update] *)
  verified : bool
}.

Definition new_verifier : verifier := {| v_hash := []; verified := false |}.

(** [transform(chunk)]: the chunk is hashed and handed on. *)
Definition verifier_transform (chunk : list byte) (v : verifier) : verifier * list byte :=
  ({| v_hash := v_hash v ++ chunk; verified := verified v |}, chunk).

(** [flush()]: [true] when the callback receives the integrity error. *)
Definition verifier_flush (expectedChecksum : jsstring) (v : verifier) : verifier * bool :=
  let actualChecksum := Buffer.toString_hex (sha256 (v_hash v)) in
  if bool_decide (actualChecksum <> expectedChecksum)
  then (v, true)
  else ({| v_hash := v_hash v; verified := true |}, false).

(** What the destination of [source.pipe(verifier)] receives from a
    source that ends: the octets handed on, and whether the stream then
    failed with 'File integrity check failed'. *)
Record delivered : Type := {
  passed_on : list byte;
  integrity_failure : bool
}.

(** A source that ends, given by its chunks, piped through
    [createChecksumVerifier(expectedChecksum)]. *)
Fixpoint through_verifier (expectedChecksum : jsstring) (chunks : list (list byte))
    (v : verifier) : delivered :=
  match chunks with
  | [] =>
      let '(_, failed) := verifier_flush expectedChecksum v in
      {| passed_on := []; integrity_failure := failed |}
  | chunk :: chunks' =>
      let '(v, out) := verifier_transform chunk v in
      let d := through_verifier expectedChecksum chunks' v in
      {| passed_on := concat (LocalStorageStrategy.push out) ++ passed_on d;
         integrity_failure := integrity_failure d |}
  end.

End StreamHelper.
End StreamHelper.

(** ** Data sanitization utility *)
Module Sanitizer.

(** The code units of an ASCII literal. *)
Definition lit (s : string) : jsstring :=
  map Byte.to_N (String.list_byte_of_string s).

(** [SENSITIVE_FIELDS] *)
Definition SENSITIVE_FIELDS : list jsstring :=
  [ lit "password"; lit "password_hash"; lit "passwordHash"; lit "newPassword";
    lit "oldPassword"; lit "currentPassword"; lit "secret"; lit "token";
    lit "accessToken"; lit "refreshToken"; lit "apiKey"; lit "api_key";
    lit "sessionId"; lit "session_id"; lit "sessionToken";
    lit "creditCard"; lit "credit_card"; lit "cardNumber"; lit "card_number";
    lit "cvv"; lit "cvv2"; lit "pin";
    lit "privateKey"; lit "private_key"; lit "encryptionKey"; lit "encryption_key";
    lit "salt" ].

(** [REDACTED] *)
Definition REDACTED : jsstring := lit "[REDACTED]".

Definition MAX_DEPTH_EXCEEDED : jsstring := lit "[MAX_DEPTH_EXCEEDED]".

Section Sanitizer.
(** Numbers are never inspected; any carrier stands for them. *)
Context {number : Type}.
(** [String.prototype.toLowerCase] *)
Variable toLowerCase : jsstring -> jsstring.

(** The values [sanitize] is given: primitives, arrays, and plain objects
    as the list of their own entries in [Object.entries] order. *)
Local Unset Elimination Schemes.
Inductive value : Type :=
| VUndefined
| VNull
| VBoolean (b : bool)
| VNumber (n : number)
| VString (s : jsstring)
| VArray (items : list value)
| VObject (entries : list (jsstring * value)).
Local Set Elimination Schemes.

(** Induction over values, through the items of arrays and the values
    of object entries. *)
Fixpoint value_ind (P : value -> Prop)
    (Hundefined : P VUndefined) (Hnull : P VNull)
    (Hboolean : forall b, P (VBoolean b)) (Hnumber : forall n, P (VNumber n))
    (Hstring : forall s, P (VString s))
    (Harray : forall items, Forall P items -> P (VArray items))
    (Hobject : forall entries, Forall (fun entry => P (snd entry)) entries ->
                               P (VObject entries))
    (v : value) : P v :=
  let rec := value_ind P Hundefined Hnull Hboolean Hnumber Hstring Harray Hobject in
  match v with
  | VUndefined => Hundefined
  | VNull => Hnull
  | VBoolean b => Hboolean b
  | VNumber n => Hnumber n
  | VString s => Hstring s
  | VArray items =>
      Harray items
        ((fix all (l : list value) : Forall P l :=
            match l with
            | [] => @List.Forall_nil _ P
            | x :: l' => @List.Forall_cons _ P x l' (rec x) (all l')
            end) items)
  | VObject entries =>
      Hobject entries
        ((fix all (l : list (jsstring * value)) : Forall (fun entry => P (snd entry)) l :=
            match l with
            | [] => @List.Forall_nil _ _
            | entry :: l' => @List.Forall_cons _ _ entry l' (rec (snd entry)) (all l')
            end) entries)
  end.

(** [SENSITIVE_FIELDS.some(field => key.toLowerCase() === field.toLowerCase())] *)
Definition isSensitive (key : jsstring) : bool :=
  existsb (fun field => bool_decide (toLowerCase key = toLowerCase field)) SENSITIVE_FIELDS.

(** [typeof value === 'object' && value !== null] *)
Definition is_object (v : value) : bool :=
  match v with
  | VArray _ | VObject _ => true
  | _ => false
  end.

(** [sanitized[key] = v] on a plain object: an existing entry keeps its
    place and gets the new value, a new key is appended; the key
    ["__proto__"] reaches the prototype setter and adds no entry. *)
Fixpoint set_entry (key : jsstring) (v : value) (entries : list (jsstring * value))
    : list (jsstring * value) :=
  match entries with
  | [] => [(key, v)]
  | (k, old) :: entries' =>
      if bool_decide (k = key) then (k, v) :: entries'
      else (k, old) :: set_entry key v entries'
  end.

Definition assign (key : jsstring) (v : value) (entries : list (jsstring * value))
    : list (jsstring * value) :=
  if bool_decide (key = lit "__proto__") then entries else set_entry key v entries.

(** [sanitize(data, depth)] *)
Fixpoint sanitize (depth : nat) (data : value) : value :=
  if bool_decide (10 < depth) then VString MAX_DEPTH_EXCEEDED
  else
    match data with
    | VArray items => VArray (map (sanitize (S depth)) items)
    | VObject entries =>
        VObject
          (foldl (fun sanitized entry =>
                    let '(key, v) := entry in
                    if isSensitive key then assign key (VString REDACTED) sanitized
                    else if is_object v then assign key (sanitize (S depth) v) sanitized
                    else assign key v sanitized)
                 [] entries)
    | _ => data
    end.

(** [sanitizeAuditDetails(details)] *)
Definition sanitizeAuditDetails (details : value) : value :=
  if is_object details then sanitize 0 details else details.

Definition is_redacted (v : value) : bool :=
  match v with
  | VString s => bool_decide (s = REDACTED)
  | _ => false
  end.

(** No entry with a sensitive key, at any level, has a value other than
    the redaction marker. *)
Fixpoint nothing_sensitive_left (v : value) : bool :=
  match v with
  | VArray items => forallb nothing_sensitive_left items
  | VObject entries =>
      forallb (fun entry =>
                 implb (isSensitive (fst entry)) (is_redacted (snd entry))
                 && nothing_sensitive_left (snd entry))
              entries
  | _ => true
  end.

(** Data [sanitize] has nothing to do on when called at [depth]: every
    value it visits lies within the depth limit, and the objects have
    distinct keys none of which is sensitive or ["__proto__"]. *)
Fixpoint plain (depth : nat) (v : value) : bool :=
  bool_decide (depth <= 10)
  && match v with
     | VArray items => forallb (plain (S depth)) items
     | VObject entries =>
         bool_decide (NoDup (map fst entries))
         && forallb (fun entry =>
                       negb (isSensitive (fst entry))
                       && negb (bool_decide (fst entry = lit "__proto__"))
                       && (if is_object (snd entry) then plain (S depth) (snd entry)
                           else true))
                    entries
     | _ => true
     end.

End Sanitizer.

(** [ip.includes(c)] for a one-character [c]. *)
Definition includes (c : code_unit) (s : jsstring) : bool :=
  existsb (N.eqb c) s.

(** [parts.join(sep)] for a one-character separator. *)
Fixpoint join (sep : code_unit) (parts : list jsstring) : jsstring :=
  match parts with
  | [] => []
  | [p] => p
  | p :: parts' => p ++ sep :: join sep parts'
  end.

Definition dot : code_unit := 46%N.

(** [anonymizeIp(ip)] for a string [ip]. *)
Definition anonymizeIp (ip : jsstring) : jsstring :=
  if bool_decide (ip = []) then ip
  else
    let v4 :=
      if includes dot ip then
        let parts := JsString.split dot ip in
        if bool_decide (length parts = 4) then Some (join dot (<[3 := lit "0"]> parts))
        else None
      else None in
    match v4 with
    | Some anonymized => anonymized
    | None =>
        let v6 :=
          if includes JsString.colon ip then
            let parts := JsString.split JsString.colon ip in
            if bool_decide (3 <= length parts)
            then Some (join JsString.colon (take 3 parts) ++ lit "::")
            else None
          else None in
        match v6 with
        | Some anonymized => anonymized
        | None => ip
        end
    end.

End Sanitizer.

(** ** File sanitization utility *)
Module FileSanitizer.

(** [MAX_FILENAME_LENGTH] *)
Definition MAX_FILENAME_LENGTH : nat := 200.

Definition underscore : code_unit := 95%N.
Definition dash : code_unit := 45%N.

(** The class [[a-zA-Z0-9._\- ]]. *)
Definition allowed (c : code_unit) : bool :=
  ((97 <=? c)%N && (c <=? 122)%N) || ((65 <=? c)%N && (c <=? 90)%N)
  || ((48 <=? c)%N && (c <=? 57)%N)
  || (c =? 46)%N || (c =? 95)%N || (c =? 45)%N || (c =? 32)%N.

(** White space and line terminators, as [String.prototype.trim] removes them. *)
Definition is_white_space (c : code_unit) : bool :=
  ((9 <=? c)%N && (c <=? 13)%N) || (c =? 32)%N || (c =? 160)%N || (c =? 5760)%N
  || ((8192 <=? c)%N && (c <=? 8202)%N) || (c =? 8232)%N || (c =? 8233)%N
  || (c =? 8239)%N || (c =? 8287)%N || (c =? 12288)%N || (c =? 65279)%N.

(** Removes the longest prefix of characters satisfying [p]. *)
Fixpoint drop_while (p : code_unit -> bool) (s : jsstring) : jsstring :=
  match s with
  | c :: rest => if p c then drop_while p rest else s
  | [] => []
  end.

(** Removes the longest suffix of characters satisfying [p]. *)
Definition drop_while_end (p : code_unit -> bool) (s : jsstring) : jsstring :=
  reverse (drop_while p (reverse s)).

(** [s.trim()] *)
Definition trim (s : jsstring) : jsstring :=
  drop_while_end is_white_space (drop_while is_white_space s).

(** [s.replace(/_{2,}/g, '_')]: every run of two or more underscores
    becomes one. *)
Fixpoint collapse_underscores (s : jsstring) : jsstring :=
  match s with
  | c :: rest =>
      if (c =? underscore)%N
      then match rest with
           | d :: _ => if (d =? underscore)%N then collapse_underscores rest
                       else c :: collapse_underscores rest
           | [] => [c]
           end
      else c :: collapse_underscores rest
  | [] => []
  end.

Definition is_edge_character (c : code_unit) : bool :=
  (c =? underscore)%N || (c =? dash)%N.

(** The literal ['unnamed_file']. *)
Definition unnamed_file : jsstring := Sanitizer.lit "unnamed_file".

Section FileSanitizer.
(** [path.extname] and [path.basename] of the Node runtime. *)
Variable extname : jsstring -> jsstring.
Variable basename : jsstring -> jsstring -> jsstring.

(** [sanitizeFilename(filename)] for a string [filename] and the default
    options ([preserveExtension = true], [replacement = '_']), which is
    how [generateStorageKey] calls it. *)
Definition sanitizeFilename (filename : jsstring) : jsstring :=
  if bool_decide (filename = []) then unnamed_file
  else
    (* filename.replace(/\0/g, '') *)
    let sanitized := filter (fun c => c <> 0%N) filename in
    (* .replace(/[\/\\]/g, replacement) *)
    let sanitized :=
      map (fun c => if (c =? 47)%N || (c =? 92)%N then underscore else c) sanitized in
    (* .replace(/[^a-zA-Z0-9._\- ]/g, replacement) *)
    let sanitized := map (fun c => if allowed c then c else underscore) sanitized in
    (* .replace(multiplePattern, replacement) *)
    let sanitized := collapse_underscores sanitized in
    (* .trim().replace(/^[_\-]+|[_\-]+$/g, '') *)
    let sanitized :=
      drop_while_end is_edge_character (drop_while is_edge_character (trim sanitized)) in
    let ext := extname sanitized in
    let base := basename sanitized ext in
    let maxBasenameLength := (MAX_FILENAME_LENGTH - length ext)%nat in
    let truncatedBasename := take maxBasenameLength base in
    let sanitized := truncatedBasename ++ ext in
    if bool_decide (sanitized = []) then unnamed_file else sanitized.

(** [generateStorageKey(originalFilename)] with the default options (no
    prefix); [timestamp] is the decimal text of [Date.now()] and [uuid]
    the text [uuidv4()] returns. *)
Definition generateStorageKey (timestamp uuid originalFilename : jsstring) : jsstring :=
  let sanitized := sanitizeFilename originalFilename in
  Sanitizer.join dash [timestamp; uuid; sanitized].

End FileSanitizer.
End FileSanitizer.

(** ** [config/index.js]: the schema of the encryption settings *)
Module Config.

Definition comma : code_unit := 44%N.

(** [ENCRYPTION_KEYS]: [z.string().min(32)], then
    [val.split(',').map(k => k.trim())]. *)
Definition ENCRYPTION_KEYS (val : jsstring) : option (list jsstring) :=
  if bool_decide (32 <= length val)
  then Some (map FileSanitizer.trim (JsString.split comma val))
  else None.

(** [ENCRYPTION_IV]: [z.string().length(16)]. *)
Definition ENCRYPTION_IV (val : jsstring) : option jsstring :=
  if bool_decide (length val = 16) then Some val else None.

(** [config.security], from the two environment variables; [None] when
    the schema refuses them. *)
Definition security (keys iv : jsstring) : option config :=
  match ENCRYPTION_KEYS keys, ENCRYPTION_IV iv with
  | Some keys, Some iv => Some {| encryptionKeys := keys; encryptionIv := iv |}
  | _, _ => None
  end.

End Config.

(** ** Values for concrete runs *)
Module Examples.

(** A passphrase of 39 characters, which the schema admits. *)
Definition long_passphrase : jsstring := Sample.js "correct horse battery staple for tokens".

Definition cfg_long_passphrase : config :=
  {| encryptionKeys := [long_passphrase]; encryptionIv := Sample.js "0123456789abcdef" |}.

(** A five-octet source with the ZIP signature, in two chunks. *)
Definition zip_source : list (list byte) :=
  [[Byte.x50; Byte.x4b]; [Byte.x03; Byte.x04; Byte.x00]].


Definition second_name : jsstring := Sample.js "d4e5f6.bin".

(** A world with two files laid out as containers with a tag of zeros:
    one octet of ciphertext under [Sample.name], none under
    [second_name]. *)
Definition w_zero_tag : world :=
  with_files Sample.w0
    {[ Sample.name := replicate 16 Byte.x07 ++ [Byte.x41] ++ replicate 16 Byte.x00;
       second_name := replicate 16 Byte.x07 ++ [] ++ replicate 16 Byte.x00 ]}.

(** A 64-character key whose last character is no hexadecimal digit. *)
Definition key_not_hex : jsstring :=
  Sample.js "000102030405060708090a0b0c0d0e0f101112131415161718191a1b1c1d1e1g".

Definition cfg_not_hex : config :=
  {| encryptionKeys := [key_not_hex]; encryptionIv := Sample.js "0123456789abcdef" |}.

Definition self_not_hex : LocalStorageStrategy.this :=
  {| LocalStorageStrategy.key := LocalStorageStrategy._parseKey (KeyString key_not_hex);
     LocalStorageStrategy.ivLength := 16;
     LocalStorageStrategy.tagLength := 16 |}.

(** A passphrase of 37 characters that starts with U+00E9. *)
Definition key_non_ascii : jsstring :=
  233%N :: Sample.js "cole normale et autres grandes coles".

Definition cfg_non_ascii : config :=
  {| encryptionKeys := [key_non_ascii]; encryptionIv := Sample.js "0123456789abcdef" |}.

Definition self_non_ascii : LocalStorageStrategy.this :=
  {| LocalStorageStrategy.key := LocalStorageStrategy._parseKey (KeyString key_non_ascii);
     LocalStorageStrategy.ivLength := 16;
     LocalStorageStrategy.tagLength := 16 |}.

(** A raw key of 32 ASCII characters. *)
Definition key_raw_32 : jsstring := Sample.js "0123456789abcdef0123456789abcdef".

(** The configuration of the storage strategy whose key is [other_key]. *)
Definition cfg_other : config :=
  {| encryptionKeys := [Sample.other_key]; encryptionIv := Sample.js "0123456789abcdef" |}.

Definition self_other : LocalStorageStrategy.this :=
  {| LocalStorageStrategy.key := LocalStorageStrategy._parseKey (KeyString Sample.other_key);
     LocalStorageStrategy.ivLength := 16;
     LocalStorageStrategy.tagLength := 16 |}.

(** The nonce, tag and ciphertext of [Sample.token]. *)
Definition token_iv : list byte :=
  Eval vm_compute in Buffer.from_hex (nth 0 (JsString.split JsString.colon Sample.token) []).
Definition token_tag : list byte :=
  Eval vm_compute in Buffer.from_hex (nth 1 (JsString.split JsString.colon Sample.token) []).
Definition token_ct : list byte :=
  Eval vm_compute in Buffer.from_hex (nth 2 (JsString.split JsString.colon Sample.token) []).

(** The token [encrypt] returns for [false] under [Sample.cfg]. *)
Definition token_false : jsstring :=
  Eval vm_compute in
    match @Encryption.encrypt Sample.crypto Sample.json Sample.cfg Sample.LFalse with
    | Ok t => t
    | Throw _ => []
    end.

(** [toLowerCase] on ASCII letters. *)
Definition lower (s : jsstring) : jsstring :=
  map (fun c => if (65 <=? c)%N && (c <=? 90)%N then (c + 32)%N else c) s.

(** Audit details without a sensitive key. *)
Definition plain_details : @Sanitizer.value N :=
  Sanitizer.VObject
    [ (Sample.js "user", Sanitizer.VString (Sample.js "ann"));
      (Sample.js "sizes", Sanitizer.VArray [Sanitizer.VNumber 7%N; Sanitizer.VNull]) ].

(** The part of a name from its last dot on, when that dot is not the
    first character. *)
Fixpoint from_last_dot (s : jsstring) : option jsstring :=
  match s with
  | [] => None
  | c :: rest =>
      match from_last_dot rest with
      | Some e => Some e
      | None => if (c =? 46)%N then Some s else None
      end
  end.

Definition extname (path : jsstring) : jsstring :=
  match path with
  | [] => []
  | _ :: rest => default [] (from_last_dot rest)
  end.

(** The name without the given ending. *)
Definition basename (path ext : jsstring) : jsstring :=
  if bool_decide (drop (length path - length ext) path = ext)
  then take (length path - length ext) path
  else path.

End Examples.

(** * Properties *)

(** ** Octets, hexadecimal text, splitting *)
Module BufferFacts.
Import Buffer.

Lemma lxor_octet (a b : N) : (a < 256)%N -> (b < 256)%N -> (N.lxor a b < 256)%N.
Proof.
  intros Ha Hb.
  destruct (N.eq_dec (N.lxor a b) 0%N) as [->|Hnz]; [lia|].
  change 256%N with (2 ^ 8)%N.
  apply N.log2_lt_pow2; [lia|].
  eapply N.le_lt_trans; [apply N.log2_lxor|].
  apply N.max_lub_lt.
  - destruct (N.eq_dec a 0%N) as [->|?]; [reflexivity|].
    apply N.log2_lt_pow2; [lia|exact Ha].
  - destruct (N.eq_dec b 0%N) as [->|?]; [reflexivity|].
    apply N.log2_lt_pow2; [lia|exact Hb].
Qed.

Lemma to_N_lt (x : byte) : (Byte.to_N x < 256)%N.
Proof. pose proof (Byte.to_N_bounded x). lia. Qed.

Lemma of_N_small (n : N) : (n < 256)%N -> exists x, Byte.of_N n = Some x /\ Byte.to_N x = n.
Proof.
  intros Hn. destruct (Byte.of_N n) as [x|] eqn:E.
  - exists x. split; [reflexivity|]. by apply Byte.to_of_N.
  - apply Byte.of_N_None_iff in E. lia.
Qed.

Lemma to_N_bxor (a b : byte) :
  Byte.to_N (bxor a b) = N.lxor (Byte.to_N a) (Byte.to_N b).
Proof.
  unfold bxor.
  destruct (of_N_small (N.lxor (Byte.to_N a) (Byte.to_N b))) as (x & -> & Hx).
  - apply lxor_octet; apply to_N_lt.
  - exact Hx.
Qed.

Lemma to_N_inj (a b : byte) : Byte.to_N a = Byte.to_N b -> a = b.
Proof.
  intros E. pose proof (Byte.of_to_N a) as Ha. rewrite E, Byte.of_to_N in Ha.
  congruence.
Qed.

(** XOR with the same octet twice is the identity. *)
Lemma bxor_involutive (a k : byte) : bxor (bxor a k) k = a.
Proof.
  apply to_N_inj. rewrite !to_N_bxor.
  rewrite N.lxor_assoc, N.lxor_nilpotent, N.lxor_0_r. reflexivity.
Qed.

Lemma octet_to_N (x : byte) : octet (Byte.to_N x) = x.
Proof.
  unfold octet. rewrite N.mod_small by apply to_N_lt.
  rewrite Byte.of_to_N. reflexivity.
Qed.

Lemma unhex_hex_digit (n : N) : (n < 16)%N -> unhex (hex_digit n) = Some n.
Proof.
  intros Hn. unfold unhex, hex_digit.
  destruct (N.ltb_spec n 10).
  - replace ((48 <=? 48 + n)%N && (48 + n <=? 57)%N) with true
      by (symmetry; apply andb_true_iff; split; apply N.leb_le; lia).
    f_equal. lia.
  - replace ((48 <=? 87 + n)%N && (87 + n <=? 57)%N) with false
      by (symmetry; apply andb_false_iff; right; apply N.leb_gt; lia).
    replace ((97 <=? 87 + n)%N && (87 + n <=? 102)%N) with true
      by (symmetry; apply andb_true_iff; split; apply N.leb_le; lia).
    f_equal. lia.
Qed.

Lemma hex_digit_not_colon (n : N) : (n < 16)%N -> hex_digit n <> JsString.colon.
Proof.
  intros Hn. unfold hex_digit, JsString.colon.
  destruct (N.ltb_spec n 10); lia.
Qed.

Lemma nibbles (x : byte) :
  (Byte.to_N x / 16 < 16 /\ Byte.to_N x mod 16 < 16
   /\ 16 * (Byte.to_N x / 16) + Byte.to_N x mod 16 = Byte.to_N x)%N.
Proof.
  pose proof (to_N_lt x) as Hx.
  repeat split.
  - apply N.Div0.div_lt_upper_bound. lia.
  - apply N.mod_lt. lia.
  - symmetry. apply N.div_mod. lia.
Qed.

(** [Buffer.from(b.toString('hex'), 'hex')] gives [b] back, whatever
    non-hexadecimal text follows. *)
Lemma from_hex_toString_hex (b : list byte) : from_hex (toString_hex b) = b.
Proof.
  induction b as [|x b IH]; [reflexivity|].
  destruct (nibbles x) as (Hh & Hl & Hx).
  cbn [toString_hex flat_map app from_hex].
  rewrite (unhex_hex_digit _ Hh), (unhex_hex_digit _ Hl), Hx, octet_to_N.
  f_equal. exact IH.
Qed.

Lemma toString_hex_no_colon (b : list byte) :
  Forall (fun c => c <> JsString.colon) (toString_hex b).
Proof.
  induction b as [|x b IH]; [constructor|].
  destruct (nibbles x) as (Hh & Hl & _).
  cbn [toString_hex flat_map app].
  repeat constructor; auto using hex_digit_not_colon.
Qed.

(** A text without the separator is a single field. *)
Lemma split_no_sep (sep : code_unit) (s : jsstring) :
  Forall (fun c => c <> sep) s -> JsString.split sep s = [s].
Proof.
  induction 1 as [|c s Hc _ IH]; [reflexivity|].
  cbn [JsString.split]. rewrite IH.
  destruct (N.eqb_spec c sep); [contradiction|reflexivity].
Qed.

(** Splitting after a first field that has no separator. *)
Lemma split_app_sep (sep : code_unit) (s rest : jsstring) :
  Forall (fun c => c <> sep) s ->
  JsString.split sep (s ++ sep :: rest) = s :: JsString.split sep rest.
Proof.
  induction 1 as [|c s Hc _ IH]; cbn [app JsString.split].
  - rewrite N.eqb_refl. reflexivity.
  - rewrite IH. destruct (N.eqb_spec c sep); [contradiction|reflexivity].
Qed.

Lemma length_toString_hex (b : list byte) :
  length (Buffer.toString_hex b) = 2 * length b.
Proof.
  induction b as [|x b IH]; [reflexivity|].
  cbn [Buffer.toString_hex flat_map app length].
  change (flat_map _ b) with (Buffer.toString_hex b). rewrite IH. lia.
Qed.

(** Hexadecimal text produced by [toString('hex')] has even length. *)
Lemma toString_hex_even (b : list byte) :
  length (Buffer.toString_hex b) mod 2 = 0.
Proof.
  rewrite length_toString_hex, Nat.mul_comm. apply Nat.Div0.mod_mul.
Qed.

End BufferFacts.

(** ** The cipher objects *)
Module GcmFacts.
Section GcmFacts.
Context `{Crypto}.
Import Gcm.

Lemma length_xor_stream key iv pos data :
  length (xor_stream key iv pos data) = length data.
Proof. unfold xor_stream. apply length_imap. Qed.

Lemma xor_stream_nil key iv pos : xor_stream key iv pos [] = [].
Proof. reflexivity. Qed.

Lemma xor_stream_nil_inv key iv pos data : xor_stream key iv pos data = [] -> data = [].
Proof.
  intros E. apply (f_equal length) in E. rewrite length_xor_stream in E.
  by destruct data.
Qed.

(** Counter mode is its own inverse at the same position. *)
Lemma xor_stream_involutive key iv pos data :
  xor_stream key iv pos (xor_stream key iv pos data) = data.
Proof.
  unfold xor_stream. apply list_eq. intros i.
  rewrite !list_lookup_imap. destruct (data !! i) as [b|]; [|reflexivity].
  cbn. by rewrite BufferFacts.bxor_involutive.
Qed.

(** Encrypting chunk by chunk is encrypting the concatenation. *)
Lemma xor_stream_app key iv pos a b :
  xor_stream key iv pos (a ++ b)
  = xor_stream key iv pos a ++ xor_stream key iv (pos + length a) b.
Proof.
  unfold xor_stream. rewrite imap_app. f_equal.
  apply imap_ext. intros i x _. cbn. by rewrite Nat.add_assoc.
Qed.

Lemma valid_gcm_tag_length_16 : valid_gcm_tag_length 16 = true.
Proof. reflexivity. Qed.

End GcmFacts.
End GcmFacts.

(** ** Download tokens *)
Module EncryptionFacts.
Section EncryptionFacts.
Context `{Crypto} `{Json}.
Import Encryption Spec.

Lemma from_utf8_nil_inv (s : jsstring) : Buffer.from_utf8 s = [] -> s = [].
Proof.
  destruct s as [|c rest]; [reflexivity|].
  cbn [Buffer.from_utf8].
  repeat match goal with
         | |- context [if ?b then _ else _] => destruct b
         | |- context [match ?l with [] => _ | _ :: _ => _ end] => destruct l
         end; discriminate.
Qed.

(** One key of the loop succeeds exactly when the third field has even
    length, the key authenticates the ciphertext and the released
    plaintext parses. *)
Lemma decrypt_with_Ok key iv tag encryptedHex p :
  decrypt_with key iv tag encryptedHex = Ok p
  <-> length encryptedHex mod 2 = 0
      /\ authenticates key iv tag (Buffer.from_hex encryptedHex) = true
      /\ JSON_parse (toString_utf8 (plaintext key iv (Buffer.from_hex encryptedHex))) = Ok p.
Proof.
  unfold decrypt_with, authenticates, plaintext,
    Gcm.createDecipheriv, Gcm.setAuthTag, Gcm.dupdate, Gcm.dfinal.
  destruct (bool_decide (length iv = 0)); cbn;
    [split; [discriminate|intros (_ & [=] & _)]|].
  destruct (bool_decide (length (key_bytes key) = 32)); cbn;
    [|split; [discriminate|intros (_ & [=] & _)]].
  destruct (Gcm.valid_gcm_tag_length (length tag)); cbn;
    [|split; [discriminate|intros (_ & [=] & _)]].
  case_bool_decide as Hodd; [split; [discriminate|intros (Heven & _); done]|].
  assert (length encryptedHex mod 2 = 0) as Heven
    by (destruct (decide (length encryptedHex mod 2 = 0)); done).
  cbn. destruct (bool_decide (tag = _)); cbn;
    [|split; [discriminate|intros (_ & [=] & _)]].
  rewrite app_nil_r. split; [intros ->; done|intros (_ & _ & ->); done].
Qed.

(** The loop returns what the first succeeding key yields. *)
Lemma decrypt_loop_first keys iv tag encryptedHex i key p :
  keys !! i = Some key ->
  decrypt_with key iv tag encryptedHex = Ok p ->
  (forall j key', j < i -> keys !! j = Some key' ->
                  exists e, decrypt_with key' iv tag encryptedHex = Throw e) ->
  decrypt_loop keys iv tag encryptedHex = p.
Proof.
  revert i. induction keys as [|k keys IH]; intros i Hi Hok Hbefore; [done|].
  destruct i as [|i]; cbn in Hi |- *.
  - injection Hi as ->. by rewrite Hok.
  - destruct (Hbefore 0 k) as [e ->]; [lia|done|].
    apply (IH i); [done|done|].
    intros j key' Hj Hk. apply (Hbefore (S j) key'); [lia|done].
Qed.

(** With no succeeding key the loop falls through to [null]. *)
Lemma decrypt_loop_none keys iv tag encryptedHex :
  (forall key, key ∈ keys -> exists e, decrypt_with key iv tag encryptedHex = Throw e) ->
  decrypt_loop keys iv tag encryptedHex = null.
Proof.
  induction keys as [|k keys IH]; intros Hall; [done|]. cbn.
  destruct (Hall k) as [e ->]; [left|].
  apply IH. intros key Hkey. apply Hall. by right.
Qed.

(** Whatever the loop returns other than [null] was produced by a key
    of the ring, all earlier keys having failed. *)
Lemma decrypt_loop_some keys iv tag encryptedHex :
  decrypt_loop keys iv tag encryptedHex <> null ->
  exists i key,
    keys !! i = Some key
    /\ decrypt_with key iv tag encryptedHex = Ok (decrypt_loop keys iv tag encryptedHex)
    /\ forall j key', j < i -> keys !! j = Some key' ->
                      exists e, decrypt_with key' iv tag encryptedHex = Throw e.
Proof.
  induction keys as [|k keys IH]; intros Hnn; [done|]. cbn in Hnn |- *.
  destruct (decrypt_with k iv tag encryptedHex) as [p|e] eqn:Ek.
  - exists 0, k. split; [done|]. split; [done|]. intros j key' Hj. lia.
  - destruct (IH Hnn) as (i & key & Hi & Hok & Hbefore).
    exists (S i), key. split; [done|]. split; [done|].
    intros [|j] key' Hj Hk.
    + injection Hk as <-. eauto.
    + apply (Hbefore j key'); [lia|done].
Qed.

(** The token [encrypt] returns, field by field. *)
Lemma encrypt_Ok cfg p key :
  PARSED_KEYS cfg !! 0 = Some key ->
  length (key_bytes key) = 32 ->
  encryptionIv cfg <> [] ->
  let iv := Buffer.from_utf8 (encryptionIv cfg) in
  let ct := Gcm.xor_stream (key_bytes key) iv 0 (Buffer.from_utf8 (JSON_stringify p)) in
  encrypt cfg p
  = Ok (Buffer.toString_hex iv ++ [JsString.colon]
        ++ Buffer.toString_hex (gcm_tag (key_bytes key) iv ct) ++ [JsString.colon]
        ++ Buffer.toString_hex ct).
Proof.
  intros Hkey Hlen Hiv iv ct. unfold encrypt, PARSED_IV. rewrite Hkey.
  unfold Gcm.createCipheriv.
  rewrite bool_decide_eq_false_2
    by (intros E; apply Hiv, from_utf8_nil_inv, nil_length_inv, E).
  rewrite bool_decide_eq_true_2 by done.
  cbn. by rewrite app_nil_r.
Qed.

(** A token has three fields when it is built from three hexadecimal texts. *)
Lemma split_token (a b c : list byte) :
  JsString.split JsString.colon
    (Buffer.toString_hex a ++ [JsString.colon] ++ Buffer.toString_hex b
     ++ [JsString.colon] ++ Buffer.toString_hex c)
  = [Buffer.toString_hex a; Buffer.toString_hex b; Buffer.toString_hex c].
Proof.
  cbn [app].
  rewrite BufferFacts.split_app_sep by apply BufferFacts.toString_hex_no_colon.
  rewrite BufferFacts.split_app_sep by apply BufferFacts.toString_hex_no_colon.
  rewrite BufferFacts.split_no_sep by apply BufferFacts.toString_hex_no_colon.
  reflexivity.
Qed.

(** The key a token was made with authenticates it and recovers the payload. *)
Lemma decrypt_with_own_key key iv p :
  tag_is_128_bits -> json_round_trip ->
  length (key_bytes key) = 32 -> iv <> [] ->
  let ct := Gcm.xor_stream (key_bytes key) iv 0 (Buffer.from_utf8 (JSON_stringify p)) in
  decrypt_with key iv (gcm_tag (key_bytes key) iv ct) (Buffer.toString_hex ct) = Ok p.
Proof.
  intros Htag Hjson Hlen Hiv ct. apply decrypt_with_Ok.
  rewrite BufferFacts.from_hex_toString_hex.
  split; [apply BufferFacts.toString_hex_even|]. split.
  - unfold authenticates. rewrite Htag, GcmFacts.valid_gcm_tag_length_16.
    rewrite bool_decide_eq_false_2 by (intros E; by apply Hiv, nil_length_inv).
    rewrite bool_decide_eq_true_2 by done.
    rewrite bool_decide_eq_true_2; [done|].
    rewrite take_ge; [done|]. by rewrite Htag.
  - unfold plaintext, ct. rewrite GcmFacts.xor_stream_involutive.
    destruct (Hjson p) as [Hparse ->]. exact Hparse.
Qed.

End EncryptionFacts.
End EncryptionFacts.

(** ** The sample runtime obeys the laws *)
Module SampleFacts.

Lemma sample_tag_is_128_bits : @tag_is_128_bits Sample.crypto.
Proof. intros key iv ct. reflexivity. Qed.

Lemma sample_json_round_trip : @json_round_trip Sample.json.
Proof. intros p. destruct p; split; reflexivity. Qed.

End SampleFacts.

(** ** Claims about the token codec *)
Section TokenClaims.
Context `{Crypto} `{Json}.
Import Encryption Spec EncryptionFacts.

(** [encrypt] succeeds only with a usable first key and a non-empty
    nonce, and then returns the three hexadecimal fields. *)
Lemma encrypt_inv cfg p token :
  encrypt cfg p = Ok token ->
  exists key,
    PARSED_KEYS cfg !! 0 = Some key
    /\ length (key_bytes key) = 32
    /\ Buffer.from_utf8 (encryptionIv cfg) <> []
    /\ let iv := Buffer.from_utf8 (encryptionIv cfg) in
       let ct := Gcm.xor_stream (key_bytes key) iv 0 (Buffer.from_utf8 (JSON_stringify p)) in
       token = Buffer.toString_hex iv ++ [JsString.colon]
               ++ Buffer.toString_hex (gcm_tag (key_bytes key) iv ct) ++ [JsString.colon]
               ++ Buffer.toString_hex ct.
Proof.
  unfold encrypt, PARSED_IV, Gcm.createCipheriv.
  destruct (PARSED_KEYS cfg !! 0) as [key|]; [|discriminate].
  destruct (bool_decide (length _ = 0)) eqn:Eiv; [discriminate|].
  destruct (bool_decide (length (key_bytes key) = 32)) eqn:Ek; [|discriminate].
  cbn. rewrite app_nil_r. intros [= <-].
  apply bool_decide_eq_true in Ek. apply bool_decide_eq_false in Eiv.
  exists key. repeat split; [done|].
  intros E. apply Eiv. by rewrite E.
Qed.

(** One key of the loop fails when the third field has odd length, when
    the key does not authenticate the ciphertext, or when the released
    plaintext does not parse. *)
Lemma decrypt_with_fails key iv tag encryptedHex :
  length encryptedHex mod 2 <> 0
  \/ authenticates key iv tag (Buffer.from_hex encryptedHex) = false
  \/ (exists e, JSON_parse (toString_utf8 (plaintext key iv (Buffer.from_hex encryptedHex)))
                = Throw e) ->
  exists e, decrypt_with key iv tag encryptedHex = Throw e.
Proof.
  intros Hfail. destruct (decrypt_with key iv tag encryptedHex) as [p|e] eqn:E; [|eauto].
  apply decrypt_with_Ok in E as (Heven & Hauth & Hparse).
  destruct Hfail as [Hodd|[Hf|[e He]]]; [done|congruence..].
Qed.

(** C2.  Token round trip: with a usable current key and the 16-character
    nonce the configuration schema demands, [encrypt] returns a token
    and [decrypt] of that token is the payload again. *)
Theorem C2_token_round_trip (cfg : config) (key : key_material) (p : payload) :
  tag_is_128_bits -> json_round_trip ->
  PARSED_KEYS cfg !! 0 = Some key ->
  length (key_bytes key) = 32 ->
  length (encryptionIv cfg) = 16 ->
  exists token, encrypt cfg p = Ok token /\ decrypt cfg token = p.
Proof.
  intros Htag Hjson Hkey Hlen Hiv.
  assert (encryptionIv cfg <> []) as Hne by (intros E; by rewrite E in Hiv).
  eexists. split; [by apply (encrypt_Ok cfg p key)|].
  unfold decrypt. rewrite split_token, !BufferFacts.from_hex_toString_hex.
  apply (decrypt_loop_first _ _ _ _ 0 key); [done| |intros j ? Hj; lia].
  apply decrypt_with_own_key; [done..|].
  intros E. by apply Hne, from_utf8_nil_inv.
Qed.

(** C3 as amended.  The nonce field of every token [encrypt] returns is
    the hexadecimal text of the configured [ENCRYPTION_IV]; it is the
    same for every invocation and no randomness enters it. *)
Theorem C3_nonce_is_the_configured_iv (cfg : config) (p : payload) (token : jsstring) :
  encrypt cfg p = Ok token ->
  nonce_field token = Buffer.toString_hex (Buffer.from_utf8 (encryptionIv cfg))
  /\ forall p' token', encrypt cfg p' = Ok token' -> nonce_field token' = nonce_field token.
Proof.
  assert (forall q t, encrypt cfg q = Ok t ->
            nonce_field t = Buffer.toString_hex (Buffer.from_utf8 (encryptionIv cfg))) as Hfield.
  { intros q t (key & _ & _ & _ & ->)%encrypt_inv.
    unfold nonce_field. by rewrite split_token. }
  intros Ht. split; [by apply (Hfield p)|].
  intros p' token' Ht'. by rewrite (Hfield _ _ Ht), (Hfield _ _ Ht').
Qed.

(** C4.  [decrypt] fails closed: a token that does not split into exactly
    three fields gives [null], and so does a token whose third field is
    hexadecimal text of odd length, which no decipher accepts; otherwise
    the keys are tried in ring order and the result is the payload of
    the first key that authenticates the ciphertext and whose plaintext
    parses, [null] when no key authenticates; a result other than [null]
    is always the parsed plaintext of an authenticated ciphertext. *)
Theorem C4_decrypt_fails_closed (cfg : config) (token : jsstring) :
  (length (JsString.split JsString.colon token) <> 3 -> decrypt cfg token = null)
  /\ forall ivHex authTagHex encryptedHex,
       JsString.split JsString.colon token = [ivHex; authTagHex; encryptedHex] ->
       let iv := Buffer.from_hex ivHex in
       let tag := Buffer.from_hex authTagHex in
       let ct := Buffer.from_hex encryptedHex in
       (length encryptedHex mod 2 <> 0 -> decrypt cfg token = null)
       /\ (forall i key p,
           length encryptedHex mod 2 = 0 ->
           PARSED_KEYS cfg !! i = Some key ->
           authenticates key iv tag ct = true ->
           JSON_parse (toString_utf8 (plaintext key iv ct)) = Ok p ->
           (forall j key', j < i -> PARSED_KEYS cfg !! j = Some key' ->
               authenticates key' iv tag ct = false
               \/ exists e, JSON_parse (toString_utf8 (plaintext key' iv ct)) = Throw e) ->
           decrypt cfg token = p)
       /\ ((forall key, key ∈ PARSED_KEYS cfg -> authenticates key iv tag ct = false) ->
           decrypt cfg token = null)
       /\ (decrypt cfg token <> null ->
           length encryptedHex mod 2 = 0
           /\ exists i key,
             PARSED_KEYS cfg !! i = Some key
             /\ authenticates key iv tag ct = true
             /\ JSON_parse (toString_utf8 (plaintext key iv ct)) = Ok (decrypt cfg token)).
Proof.
  split.
  - intros Hlen. unfold decrypt.
    destruct (JsString.split JsString.colon token) as [|a [|b [|c [|d l]]]]; try done.
  - intros ivHex authTagHex encryptedHex Hsplit iv tag ct.
    unfold decrypt. rewrite Hsplit. fold iv tag. split; [|split; [|split]].
    + intros Hodd. apply decrypt_loop_none.
      intros key Hkey. apply decrypt_with_fails. by left.
    + intros i key p Heven Hi Hauth Hparse Hbefore.
      apply (decrypt_loop_first _ _ _ _ i key); [done|by apply decrypt_with_Ok|].
      intros j key' Hj Hk. apply decrypt_with_fails. right. by apply (Hbefore j).
    + intros Hall. apply decrypt_loop_none.
      intros key Hkey. apply decrypt_with_fails. right. left. by apply Hall.
    + intros Hnn. destruct (decrypt_loop_some _ _ _ _ Hnn) as (i & key & Hi & Hok & _).
      apply decrypt_with_Ok in Hok as (Heven & Hauth & Hparse).
      split; [done|]. eauto.
Qed.

(** C5.  Key rotation: a token made while [K] was the first configured
    key still decrypts to its payload once [K'] is first and [K] second,
    given that [K'] does not authenticate the token (as a key other than
    the encrypting one does not, up to a tag collision). *)
Theorem C5_key_rotation (cfg cfg' : config) (K K' : jsstring) (rest rest' : list jsstring)
    (p : payload) (token : jsstring) :
  tag_is_128_bits -> json_round_trip ->
  encryptionKeys cfg = K :: rest ->
  encryptionKeys cfg' = K' :: K :: rest' ->
  encrypt cfg p = Ok token ->
  (let iv := Buffer.from_utf8 (encryptionIv cfg) in
   let ct := Gcm.xor_stream (key_bytes (parsed_key K)) iv 0
               (Buffer.from_utf8 (JSON_stringify p)) in
   authenticates (parsed_key K') iv (gcm_tag (key_bytes (parsed_key K)) iv ct) ct = false) ->
  decrypt cfg' token = p.
Proof.
  intros Htag Hjson Hcfg Hcfg' Henc Hreject.
  apply encrypt_inv in Henc as (key & Hkey & Hlen & Hiv & ->).
  unfold PARSED_KEYS in Hkey. rewrite Hcfg in Hkey. injection Hkey as <-.
  unfold decrypt. rewrite split_token, !BufferFacts.from_hex_toString_hex.
  unfold PARSED_KEYS. rewrite Hcfg'.
  apply (decrypt_loop_first _ _ _ _ 1 (parsed_key K)); [done| |].
  - by apply decrypt_with_own_key.
  - intros [|j] key' Hj Hk; [|lia]. injection Hk as <-.
    apply decrypt_with_fails. right. left. rewrite BufferFacts.from_hex_toString_hex.
    exact Hreject.
Qed.

End TokenClaims.

(** C2 on the sample configuration. *)
Lemma C2_witness :
  exists token,
    @Encryption.encrypt Sample.crypto Sample.json Sample.cfg Sample.LTrue = Ok token
    /\ @Encryption.decrypt Sample.crypto Sample.json Sample.cfg token = Sample.LTrue.
Proof.
  apply (@C2_token_round_trip Sample.crypto Sample.json Sample.cfg
           (KeyBuffer (Buffer.from_hex Sample.hex_key)) Sample.LTrue).
  - exact SampleFacts.sample_tag_is_128_bits.
  - exact SampleFacts.sample_json_round_trip.
  - reflexivity.
  - reflexivity.
  - reflexivity.
Defined.

(** C3 on the sample configuration. *)
Lemma C3_witness :
  @Encryption.encrypt Sample.crypto Sample.json Sample.cfg Sample.LTrue = Ok Sample.token
  /\ Spec.nonce_field Sample.token = Sample.js "30313233343536373839616263646566".
Proof.
  split; [reflexivity|].
  apply (@C3_nonce_is_the_configured_iv Sample.crypto Sample.json
           Sample.cfg Sample.LTrue Sample.token).
  reflexivity.
Defined.

(** C3 as stated fails: the nonce field of the token is the configured
    text ["0123456789abcdef"] in hexadecimal, not the 16 octets the
    CSPRNG delivers at the time of the call, and a second call, at which
    the CSPRNG delivers other octets, returns the same nonce field. *)
Lemma C3_counterexample :
  let fresh := fst (randomBytes 16 Sample.w0) in
  let fresh' := fst (randomBytes 16 (snd (randomBytes 16 Sample.w0))) in
  fresh <> fresh'
  /\ exists token,
       @Encryption.encrypt Sample.crypto Sample.json Sample.cfg Sample.LTrue = Ok token
       /\ @Encryption.encrypt Sample.crypto Sample.json Sample.cfg Sample.LFalse <> Ok token
       /\ Spec.nonce_field token <> Buffer.toString_hex fresh
       /\ forall token',
            @Encryption.encrypt Sample.crypto Sample.json Sample.cfg Sample.LFalse = Ok token' ->
            Spec.nonce_field token' = Spec.nonce_field token.
Proof.
  cbv zeta. split; [vm_compute; discriminate|].
  exists Sample.token. split; [reflexivity|].
  split; [vm_compute; discriminate|].
  split; [vm_compute; discriminate|].
  intros token'. vm_compute. intros [= <-]. reflexivity.
Qed.

(** C5 on the sample configurations: the token made under [Sample.cfg]
    decrypts under [Sample.cfg_rotated]. *)
Lemma C5_witness :
  @Encryption.decrypt Sample.crypto Sample.json Sample.cfg_rotated Sample.token = Sample.LTrue.
Proof.
  apply (@C5_key_rotation Sample.crypto Sample.json Sample.cfg Sample.cfg_rotated
           Sample.hex_key Sample.other_key [] [] Sample.LTrue Sample.token).
  - exact SampleFacts.sample_tag_is_128_bits.
  - exact SampleFacts.sample_json_round_trip.
  - reflexivity.
  - reflexivity.
  - reflexivity.
  - vm_compute. reflexivity.
Defined.

(** ** Magic numbers *)
Module FileValidationFacts.
Import FileValidation.

Lemma validateBuffer_short (buffer : list byte) :
  length buffer < 4 -> validateBuffer buffer = None.
Proof. intros Hl. unfold validateBuffer. by rewrite bool_decide_eq_true_2. Qed.

(** Only the first four octets are looked at. *)
Lemma validateBuffer_take (buffer : list byte) :
  4 <= length buffer -> validateBuffer buffer = validateBuffer (take 4 buffer).
Proof.
  intros Hl. destruct buffer as [|a [|b [|c [|d rest]]]]; cbn in Hl; try lia.
  unfold validateBuffer.
  rewrite !bool_decide_eq_false_2 by (cbn; lia).
  reflexivity.
Qed.

End FileValidationFacts.

(** ** The write pipeline, stage by stage *)
Module PipelineFacts.
Section PipelineFacts.
Context `{Crypto}.
Import LocalStorageStrategy Spec.
Variables key iv : list byte.

Lemma push_nil : push [] = [].
Proof. reflexivity. Qed.

Lemma push_nonempty (chunk : list byte) : chunk <> [] -> push chunk = [chunk].
Proof. intros Hc. unfold push. by rewrite bool_decide_eq_false_2. Qed.

Lemma concat_push (chunk : list byte) : concat (push chunk) = chunk.
Proof.
  unfold push. case_bool_decide as E; [by rewrite E|]. apply app_nil_r.
Qed.

Lemma partial_container_app (consumed chunk : list byte) :
  chunk <> [] ->
  partial_container key iv consumed
  ++ (if negb (bool_decide (consumed = [])) then [] else iv)
  ++ Gcm.xor_stream key iv (length consumed) chunk
  = partial_container key iv (consumed ++ chunk).
Proof.
  intros Hc. unfold partial_container.
  rewrite (bool_decide_eq_false_2 (consumed ++ chunk = []))
    by (intros [_ ?]%app_eq_nil; done).
  rewrite GcmFacts.xor_stream_app. cbn [Nat.add].
  case_bool_decide as E; cbn.
  - by rewrite E.
  - by rewrite <- app_assoc.
Qed.

(** What the stages behind the validator do with the chunk it pushes. *)
Lemma through_cipher_push (consumed chunk : list byte) (s : stages) :
  downstream_after key iv consumed s ->
  let s' := through_cipher iv (push chunk) s in
  st_validator s' = st_validator s /\ downstream_after key iv (consumed ++ chunk) s'.
Proof.
  intros (Hc & Hp & Hw). destruct s as [v c ivp wr]. cbn in Hc, Hp, Hw. subst c ivp wr.
  destruct (decide (chunk = [])) as [->|Hne].
  - rewrite push_nil, app_nil_r. by repeat split.
  - rewrite push_nonempty by done. cbn [through_cipher foldl Gcm.update].
    pose proof (GcmFacts.length_xor_stream key iv 0 consumed) as Hlen.
    cbn [Gcm.c_key Gcm.c_iv Gcm.c_out st_cipher]. rewrite Hlen.
    rewrite push_nonempty
      by (intros E%GcmFacts.xor_stream_nil_inv; done).
    cbn. split; [done|]. repeat split; cbn.
    + by rewrite GcmFacts.xor_stream_app.
    + symmetry. rewrite bool_decide_eq_false_2; [done|].
      intros [_ ?]%app_eq_nil; done.
    + rewrite <- partial_container_app by done.
      f_equal. rewrite concat_app.
      destruct (bool_decide (consumed = [])); cbn [negb]; by rewrite ?concat_push.
Qed.

(** A chunk the validator hands on goes through the later stages. *)
Lemma on_data_handed_on (consumed chunk : list byte) (s : stages) (v : validator) :
  validator_transform chunk (st_validator s) = (v, Ok chunk) ->
  downstream_after key iv consumed s ->
  validator_after (consumed ++ chunk) v ->
  exists s', on_data iv chunk s = (s', None)
             /\ stages_after key iv (consumed ++ chunk) s'.
Proof.
  intros Ev Hd Hv. unfold on_data. rewrite Ev.
  eexists. split; [reflexivity|].
  destruct (through_cipher_push consumed chunk (set_validator v s) Hd) as [Es Hd'].
  split; [|exact Hd']. rewrite Es. exact Hv.
Qed.

(** A chunk that leaves the validator undecided or on an accepted
    signature goes through all stages. *)
Lemma on_data_accepts (consumed chunk : list byte) (s : stages) :
  stages_after key iv consumed s ->
  length (consumed ++ chunk) < 4
  \/ is_Some (FileValidation.validateBuffer (take 4 (consumed ++ chunk))) ->
  exists s', on_data iv chunk s = (s', None)
             /\ stages_after key iv (consumed ++ chunk) s'.
Proof.
  intros [(Hh & He & Hv) Hd] Hacc.
  destruct (isValidated (st_validator s)) eqn:Eval.
  - destruct Hv as [Hl Hs].
    eapply on_data_handed_on; [|exact Hd|].
    + unfold validator_transform. rewrite Eval. reflexivity.
    + cbn. rewrite Hh. repeat split; [done|rewrite length_app; lia|].
      by rewrite take_app_le.
  - destruct Hv as [Hm Hl].
    destruct (decide (MAGIC_CHECK_SIZE <= length (consumed ++ chunk))) as [E4|E4];
      unfold MAGIC_CHECK_SIZE in E4.
    + destruct Hacc as [Hshort|[e Hsome]]; [lia|].
      eapply on_data_handed_on; [|exact Hd|].
      * unfold validator_transform. rewrite Eval, Hm. cbn [negb].
        rewrite bool_decide_eq_true_2 by done.
        rewrite FileValidationFacts.validateBuffer_take, Hsome by done.
        reflexivity.
      * cbn. rewrite Hh. repeat split; [done|done|by exists e].
    + eapply on_data_handed_on; [|exact Hd|].
      * unfold validator_transform. rewrite Eval, Hm. cbn [negb].
        rewrite bool_decide_eq_false_2 by done. reflexivity.
      * cbn. rewrite Hh. repeat split; [done|lia].
Qed.

(** The chunk with which the fourth octet arrives is rejected when the
    first four octets are no accepted signature; nothing of it reaches
    the later stages. *)
Lemma on_data_rejects (consumed chunk : list byte) (s : stages) :
  stages_after key iv consumed s ->
  length consumed < 4 -> 4 <= length (consumed ++ chunk) ->
  FileValidation.validateBuffer (take 4 (consumed ++ chunk)) = None ->
  exists s', on_data iv chunk s = (s', Some MagicByteMismatch)
             /\ validationError (st_validator s') = Some MagicByteMismatch
             /\ isValidated (st_validator s') = false
             /\ st_written s' = partial_container key iv consumed.
Proof.
  intros [(Hh & He & Hv) (Hc & Hp & Hw)] Hl Hl' Hnone. unfold on_data, validator_transform.
  destruct (isValidated (st_validator s)) eqn:Eval; [destruct Hv; lia|].
  destruct Hv as [Hm _]. rewrite Hm. cbn [negb].
  rewrite bool_decide_eq_true_2 by done.
  rewrite FileValidationFacts.validateBuffer_take, Hnone by done.
  eexists. split; [reflexivity|]. by repeat split.
Qed.

Lemma initial_stages_after :
  stages_after key iv []
    (initial_stages {| Gcm.c_key := key; Gcm.c_iv := iv; Gcm.c_out := [] |}).
Proof. repeat split; cbn; lia. Qed.

(** At the end of the source the file holds nonce, ciphertext and tag. *)
Lemma on_end_container (consumed : list byte) (s : stages) :
  stages_after key iv consumed s ->
  st_validator (on_end iv s) = st_validator s
  /\ st_written (on_end iv s) = container key iv consumed.
Proof.
  intros [_ (Hc & Hp & Hw)]. unfold on_end, containerizer_flush, Gcm.final.
  rewrite push_nil. cbn. split; [done|].
  rewrite Hw, Hp, Hc, concat_app, concat_push. unfold Gcm.getAuthTag, container. cbn.
  unfold partial_container. case_bool_decide as E; cbn.
  - rewrite concat_push. by rewrite E.
  - by rewrite <- app_assoc.
Qed.

(** A source that is shorter than four octets, or starts with an
    accepted signature, runs through: the hash has seen all of it, the
    file is its container, and the validator has decided exactly when
    four octets arrived. *)
Lemma pipeline_accepts (chunks : list (list byte)) (consumed : list byte) (s : stages) :
  stages_after key iv consumed s ->
  length (consumed ++ concat chunks) < 4
  \/ is_Some (FileValidation.validateBuffer (take 4 (consumed ++ concat chunks))) ->
  exists s', pipeline iv chunks s = (s', None)
             /\ hash (st_validator s') = consumed ++ concat chunks
             /\ validationError (st_validator s') = None
             /\ isValidated (st_validator s')
                = bool_decide (4 <= length (consumed ++ concat chunks))
             /\ st_written s' = container key iv (consumed ++ concat chunks).
Proof.
  revert consumed s. induction chunks as [|chunk chunks IH]; intros consumed s Hs Hacc.
  - cbn [concat pipeline] in *. rewrite app_nil_r in *.
    destruct (on_end_container consumed s Hs) as [Ev Ew].
    eexists. split; [reflexivity|]. rewrite Ev, Ew.
    destruct Hs as [(Hh & He & Hv) _]. repeat split; [done|done|].
    destruct (isValidated (st_validator s)).
    + destruct Hv. by rewrite bool_decide_eq_true_2.
    + destruct Hv. rewrite bool_decide_eq_false_2; [done|lia].
  - cbn [concat pipeline] in *. rewrite app_assoc in *.
    destruct (on_data_accepts consumed chunk s Hs) as (s1 & -> & Hs1).
    { destruct (decide (length (consumed ++ chunk) < 4)) as [?|Hge]; [by left|right].
      destruct Hacc as [Hshort|Hsome]; [rewrite length_app in Hshort; lia|].
      rewrite take_app_le in Hsome by lia. exact Hsome. }
    exact (IH _ _ Hs1 Hacc).
Qed.

(** A source of at least four octets whose first four are no accepted
    signature is rejected by the chunk with which the fourth octet
    arrives; the chunks before it have gone through all stages. *)
Lemma pipeline_rejects (chunks : list (list byte)) (consumed : list byte) (s : stages) :
  stages_after key iv consumed s ->
  length consumed < 4 ->
  4 <= length (consumed ++ concat chunks) ->
  FileValidation.validateBuffer (take 4 (consumed ++ concat chunks)) = None ->
  exists s' before chunk after,
    chunks = before ++ chunk :: after
    /\ length (consumed ++ concat before) < 4 <= length (consumed ++ concat before ++ chunk)
    /\ pipeline iv chunks s = (s', Some MagicByteMismatch)
    /\ validationError (st_validator s') = Some MagicByteMismatch
    /\ isValidated (st_validator s') = false
    /\ st_written s' = partial_container key iv (consumed ++ concat before).
Proof.
  revert consumed s. induction chunks as [|chunk chunks IH];
    intros consumed s Hs Hlt Hge Hnone; cbn [concat] in *.
  - rewrite app_nil_r in Hge. lia.
  - rewrite app_assoc in Hge, Hnone.
    destruct (decide (length (consumed ++ chunk) < 4)) as [Hshort|Hlong].
    + destruct (on_data_accepts consumed chunk s Hs (or_introl Hshort)) as (s1 & E1 & Hs1).
      destruct (IH _ _ Hs1 Hshort Hge Hnone)
        as (s' & before & c & after & -> & Hb & Hp & He & Hv & Hw).
      exists s', (chunk :: before), c, after. cbn [concat pipeline app].
      rewrite E1, !app_assoc. rewrite <- !app_assoc in Hb. rewrite <- !app_assoc.
      rewrite <- app_assoc in Hw. destruct Hb. by repeat split.
    + rewrite take_app_le in Hnone by lia.
      destruct (on_data_rejects consumed chunk s Hs Hlt) as (s' & E & He & Hv & Hw);
        [lia|done|].
      exists s', [], chunk, chunks. cbn [concat pipeline app].
      rewrite E, !app_nil_r. repeat split; [done|lia|done..].
Qed.

End PipelineFacts.
End PipelineFacts.

(** ** Stored objects: writing and reading *)
Module StorageFacts.
Section StorageFacts.
Context `{Crypto}.
Import LocalStorageStrategy Spec.

Lemma randomBytes_length (n : nat) (w : world) : length (fst (randomBytes n w)) = n.
Proof. cbn. by rewrite length_map, length_seq. Qed.

Lemma constructor_lengths (cfg : config) (self : this) :
  constructor cfg = Ok self -> ivLength self = 16 /\ tagLength self = 16.
Proof.
  unfold constructor. destruct (encryptionKeys cfg !! 0%nat); [|discriminate].
  by intros [= <-].
Qed.

(** With a 32-octet key the pipeline is started, with the nonce the
    CSPRNG delivers, and the file holds what the write stream wrote. *)
Lemma run_pipeline_started (self : this) (inputStream : list (list byte))
    (filename : jsstring) (w : world) :
  ivLength self = 16 -> length (key self) = 32 ->
  let iv := fst (randomBytes 16 w) in
  let w1 := snd (randomBytes 16 w) in
  let r := pipeline iv inputStream
             (initial_stages {| Gcm.c_key := key self; Gcm.c_iv := iv; Gcm.c_out := [] |}) in
  run_pipeline self inputStream filename w
  = (Ok r, with_files w1 (<[filename := file_when_settled w1 (fst r) (snd r)]> (files w1))).
Proof.
  intros Hiv Hkey iv w1 r. unfold run_pipeline. rewrite Hiv.
  unfold randomBytes at 1. cbv iota beta.
  unfold Gcm.createCipheriv. cbn [key_bytes].
  rewrite bool_decide_eq_false_2 by (rewrite length_map, length_seq; lia).
  rewrite bool_decide_eq_true_2 by done.
  subst r iv w1. cbn [randomBytes fst snd].
  by destruct (pipeline _ _ _).
Qed.

(** The stream a decipher gives does not depend on how the ciphertext is
    cut into chunks: the plaintext of the concatenation, then the verdict
    on the tag. *)
Lemma flow_chunks (chunks : list (list byte)) (d : Gcm.decipher) (tag : list byte) :
  Gcm.d_tag d = Some tag ->
  flow chunks d
  = {| emitted := Gcm.xor_stream (Gcm.d_key d) (Gcm.d_iv d) (length (Gcm.d_in d))
                    (concat chunks);
       failure :=
         if bool_decide (tag = take (length tag)
                                 (gcm_tag (Gcm.d_key d) (Gcm.d_iv d)
                                    (Gcm.d_in d ++ concat chunks)))
         then None else Some AuthenticationFailed |}.
Proof.
  revert d. induction chunks as [|chunk chunks IH]; intros d Ht.
  - cbn [flow concat]. unfold Gcm.dfinal. rewrite Ht, app_nil_r.
    by case_bool_decide.
  - cbn [flow concat Gcm.dupdate]. rewrite IH by done.
    cbn [emitted failure Gcm.d_key Gcm.d_iv Gcm.d_in].
    rewrite GcmFacts.xor_stream_app, length_app, <- app_assoc. reflexivity.
Qed.

(** The stream [getStream] returns for the ciphertext as one chunk: a
    failure on an empty ciphertext comes before anyone listens. *)
Lemma pipe_push (ct : list byte) (d : Gcm.decipher) (tag : list byte) :
  Gcm.d_tag d = Some tag -> Gcm.d_in d = [] ->
  pipe (push ct) d
  = {| emitted := Gcm.xor_stream (Gcm.d_key d) (Gcm.d_iv d) 0 ct;
       failure :=
         if bool_decide (tag = take (length tag) (gcm_tag (Gcm.d_key d) (Gcm.d_iv d) ct))
         then None
         else Some (if bool_decide (ct = []) then UncaughtException AuthenticationFailed
                    else AuthenticationFailed) |}.
Proof.
  intros Ht Hin. unfold push. case_bool_decide as Hct.
  - subst ct. unfold pipe. rewrite (flow_chunks _ _ tag Ht), Hin.
    cbn [emitted failure concat app]. by case_bool_decide.
  - unfold pipe. rewrite (flow_chunks _ _ tag Ht), Hin.
    cbn [concat length app]. by rewrite app_nil_r.
Qed.

(** Reading a file laid out as nonce, ciphertext, tag. *)
Lemma getStream_layout (self : this) (filename : jsstring) (w : world)
    (iv ct tag : list byte) :
  ivLength self = 16 -> tagLength self = 16 ->
  files w !! filename = Some (iv ++ ct ++ tag) ->
  length iv = 16 -> length tag = 16 ->
  getStream self filename w
  = (let? d := Gcm.createDecipheriv (Some (KeyBuffer (key self))) iv in
     let? d := Gcm.setAuthTag d tag in
     Ok (pipe (push ct) d)).
Proof.
  intros Hivl Htagl Hfile Hiv Htag. unfold getStream, getStats. rewrite Hfile. cbn [bind].
  rewrite Hivl, Htagl, !length_app, Hiv, Htag.
  rewrite bool_decide_eq_false_2 by lia.
  unfold fd_read. rewrite drop_0, take_app_length' by done.
  replace (16 + (length ct + 16) - 16) with (length iv + length ct) by lia.
  rewrite app_assoc, drop_app_length' by (rewrite length_app; lia).
  rewrite take_ge by lia.
  destruct (Gcm.createDecipheriv _ iv) as [d|e]; [|done]. cbn [bind].
  destruct (Gcm.setAuthTag d tag) as [d'|e]; [|done]. cbn [bind].
  replace (length iv + length ct - 16) with (length ct) by lia.
  case_bool_decide as E0.
  - apply nil_length_inv in E0. subst ct. by rewrite PipelineFacts.push_nil.
  - unfold createReadStream. do 2 f_equal.
    rewrite <- app_assoc, drop_app_length' by done.
    replace (length iv + length ct - 1 + 1 - 16) with (length ct) by lia.
    by rewrite take_app_length.
Qed.

(** Reading back a container written under the same key. *)
Lemma getStream_container (self : this) (filename : jsstring) (w : world)
    (iv B : list byte) :
  tag_is_128_bits ->
  ivLength self = 16 -> tagLength self = 16 -> length (key self) = 32 ->
  length iv = 16 ->
  files w !! filename = Some (container (key self) iv B) ->
  getStream self filename w = Ok {| emitted := B; failure := None |}.
Proof.
  intros Htag Hivl Htagl Hkey Hiv Hfile. unfold container in Hfile.
  rewrite (getStream_layout self filename w _ _ _ Hivl Htagl Hfile Hiv (Htag _ _ _)).
  unfold Gcm.createDecipheriv. cbn [key_bytes].
  rewrite bool_decide_eq_false_2 by lia.
  rewrite bool_decide_eq_true_2 by done. cbn [bind].
  unfold Gcm.setAuthTag. rewrite Htag, GcmFacts.valid_gcm_tag_length_16. cbn [bind].
  erewrite pipe_push by reflexivity. cbn [Gcm.d_key Gcm.d_iv].
  rewrite GcmFacts.xor_stream_involutive, Htag, take_ge by (rewrite Htag; lia).
  by rewrite bool_decide_eq_true_2.
Qed.

End StorageFacts.
End StorageFacts.

(** ** Claims about the storage pipeline *)
Section StorageClaims.
Context `{Crypto}.
Import LocalStorageStrategy Spec StorageFacts.

(** What [saveLocalStream] does once the pipeline has run through. *)
Lemma saveLocalStream_accepted (self : this) (inputStream : list (list byte))
    (filename : jsstring) (w : world) (B : list byte) :
  tag_is_128_bits ->
  ivLength self = 16 -> tagLength self = 16 -> length (key self) = 32 ->
  B = concat inputStream ->
  length B < 4 \/ is_Some (FileValidation.validateBuffer (take 4 B)) ->
  exists s w',
    run_pipeline self inputStream filename w = (Ok (s, None), w')
    /\ validationError (st_validator s) = None
    /\ isValidated (st_validator s) = bool_decide (4 <= length B)
    /\ saveLocalStream self inputStream filename w
       = (Ok {| checksum := Buffer.toString_hex (sha256 B); isEncrypted := true |}, w')
    /\ files w' !! filename = Some (container (key self) (fst (randomBytes 16 w)) B)
    /\ getStream self filename w' = Ok {| emitted := B; failure := None |}.
Proof.
  intros Htag Hivl Htagl Hkey -> Hacc.
  pose proof (run_pipeline_started self inputStream filename w Hivl Hkey) as Hrun.
  cbv zeta in Hrun.
  destruct (PipelineFacts.pipeline_accepts (key self) (fst (randomBytes 16 w))
              inputStream [] _ (PipelineFacts.initial_stages_after _ _) Hacc)
    as (s & Hp & Hh & He & Hv & Hw).
  cbn [app] in Hh, Hv, Hw. rewrite Hp in Hrun. cbn [fst] in Hrun.
  eexists s, _. split; [exact Hrun|]. split; [exact He|]. split; [exact Hv|].
  assert (files (with_files (snd (randomBytes 16 w))
                   (<[filename := st_written s]> (files (snd (randomBytes 16 w)))))
            !! filename
          = Some (container (key self) (fst (randomBytes 16 w)) (concat inputStream)))
    as Hfile by (cbn [with_files files]; by rewrite lookup_insert_eq, Hw).
  split; [|split; [exact Hfile|]].
  - unfold saveLocalStream. rewrite Hrun, Hh. reflexivity.
  - eapply getStream_container; [done..| |exact Hfile].
    apply randomBytes_length.
Qed.

(** C1.  Object round trip: a source whose first four octets are an
    accepted signature is stored, the checksum returned is the
    hexadecimal SHA-256 digest of its octets, and reading the stored
    object back delivers exactly those octets and ends without error. *)
Theorem C1_object_round_trip (cfg : config) (self : this)
    (inputStream : list (list byte)) (filename : jsstring) (w : world) :
  tag_is_128_bits ->
  constructor cfg = Ok self -> length (key self) = 32 ->
  is_Some (FileValidation.validateBuffer (take 4 (concat inputStream))) ->
  exists w',
    saveLocalStream self inputStream filename w
    = (Ok {| checksum := Buffer.toString_hex (sha256 (concat inputStream));
             isEncrypted := true |}, w')
    /\ getStream self filename w'
       = Ok {| emitted := concat inputStream; failure := None |}.
Proof.
  intros Htag [Hivl Htagl]%constructor_lengths Hkey Hsig.
  destruct (saveLocalStream_accepted self inputStream filename w _
              Htag Hivl Htagl Hkey eq_refl (or_intror Hsig))
    as (s & w' & _ & _ & _ & Hsave & _ & Hread).
  eauto.
Qed.

(** C6.  Signature rejection: a source of at least four octets whose
    first four are no accepted signature is rejected with the signature
    error by the chunk with which the fourth octet arrives; no octet of
    that chunk or of a later one gets past the validator.  Whatever the
    file holds at that moment is part of the nonce and the ciphertext
    of the chunks before, hence nothing when the first chunk already
    has four octets.  [saveLocalStream] then deletes the file and
    throws the signature error: no object remains under the name. *)
Theorem C6_signature_rejection (cfg : config) (self : this)
    (inputStream : list (list byte)) (filename : jsstring) (w : world) :
  constructor cfg = Ok self -> length (key self) = 32 ->
  4 <= length (concat inputStream) ->
  FileValidation.validateBuffer (take 4 (concat inputStream)) = None ->
  exists before chunk after s w1 w',
    inputStream = before ++ chunk :: after
    /\ length (concat before) < 4 <= length (concat before ++ chunk)
    /\ run_pipeline self inputStream filename w = (Ok (s, Some MagicByteMismatch), w1)
    /\ validationError (st_validator s) = Some MagicByteMismatch
    /\ st_written s
       `prefix_of` iv_and_ciphertext (key self) (fst (randomBytes 16 w)) (concat before)
    /\ (forall partial, files w1 !! filename = Some partial ->
          partial
          `prefix_of` iv_and_ciphertext (key self) (fst (randomBytes 16 w)) (concat before))
    /\ (forall first others partial,
          inputStream = first :: others -> 4 <= length first ->
          files w1 !! filename = Some partial -> partial = [])
    /\ saveLocalStream self inputStream filename w = (Throw MagicByteMismatch, w')
    /\ files w' !! filename = None
    /\ forall other, other <> filename -> files w' !! other = files w !! other.
Proof.
  intros [Hivl Htagl]%constructor_lengths Hkey Hlen Hsig.
  pose proof (run_pipeline_started self inputStream filename w Hivl Hkey) as Hrun.
  cbv zeta in Hrun.
  destruct (PipelineFacts.pipeline_rejects (key self) (fst (randomBytes 16 w))
              inputStream [] _ (PipelineFacts.initial_stages_after _ _))
    as (s & before & chunk & after & Hin & Hb & Hp & He & _ & Hw); [cbn; lia|done..|].
  cbn [app] in Hb, Hw. rewrite Hp in Hrun. cbn [fst snd file_when_settled] in Hrun.
  set (w1 := with_files _ _) in Hrun.
  assert (files w1 !! filename = Some (take (flushed (snd (randomBytes 16 w))) (st_written s)))
    as Hfile by (subst w1; cbn [with_files files]; by rewrite lookup_insert_eq).
  assert (partial_container (key self) (fst (randomBytes 16 w)) (concat before)
          `prefix_of` iv_and_ciphertext (key self) (fst (randomBytes 16 w)) (concat before))
    as Hpart.
  { unfold partial_container, iv_and_ciphertext. case_bool_decide; [apply prefix_nil|done]. }
  exists before, chunk, after, s, w1.
  exists (with_files w1 (base.delete filename (files w1))).
  split; [done|]. split; [done|]. split; [done|]. split; [done|].
  split; [by rewrite Hw|]. split; [|split; [|split; [|split]]].
  - intros partial Hpartial. rewrite Hfile in Hpartial. injection Hpartial as <-.
    etrans; [apply prefix_take|]. by rewrite Hw.
  - intros first others partial Hfirst Hl Hpartial.
    rewrite Hfile in Hpartial. injection Hpartial as <-. rewrite Hw.
    destruct before as [|b before].
    + unfold partial_container. rewrite bool_decide_eq_true_2 by done. apply take_nil.
    + rewrite Hin in Hfirst. injection Hfirst as -> _.
      destruct Hb as [Hb _]. cbn in Hb. rewrite length_app in Hb. lia.
  - unfold saveLocalStream. rewrite Hrun. unfold delete. rewrite Hfile, He. reflexivity.
  - cbn [with_files files]. by rewrite lookup_delete_eq.
  - intros other Hother. subst w1. cbn [with_files files randomBytes snd].
    rewrite lookup_delete_ne, lookup_insert_ne by done. reflexivity.
Qed.

(** C7.  Empty object: a source without octets is stored as the 16-octet
    nonce followed by the 16-octet tag, 32 octets in all, and reading
    that object back delivers no octets and ends without error. *)
Theorem C7_empty_object (cfg : config) (self : this)
    (inputStream : list (list byte)) (filename : jsstring) (w : world) :
  tag_is_128_bits ->
  constructor cfg = Ok self -> length (key self) = 32 ->
  concat inputStream = [] ->
  exists w' iv tag,
    saveLocalStream self inputStream filename w
    = (Ok {| checksum := Buffer.toString_hex (sha256 []); isEncrypted := true |}, w')
    /\ files w' !! filename = Some (iv ++ tag)
    /\ iv = fst (randomBytes 16 w) /\ length iv = 16
    /\ tag = gcm_tag (key self) iv [] /\ length tag = 16
    /\ getStats filename w' = Ok 32
    /\ getStream self filename w' = Ok {| emitted := []; failure := None |}.
Proof.
  intros Htag [Hivl Htagl]%constructor_lengths Hkey Hempty.
  assert (length (@nil byte) < 4) as Hshort by (cbn; lia).
  destruct (saveLocalStream_accepted self inputStream filename w []
              Htag Hivl Htagl Hkey (eq_sym Hempty) (or_introl Hshort))
    as (s & w' & _ & _ & _ & Hsave & Hfile & Hread).
  exists w', (fst (randomBytes 16 w)), (gcm_tag (key self) (fst (randomBytes 16 w)) []).
  pose proof (randomBytes_length 16 w) as Hiv.
  repeat split; try done.
  unfold getStats. rewrite Hfile. unfold container.
  rewrite GcmFacts.xor_stream_nil. cbn [app]. by rewrite length_app, Hiv, Htag.
Qed.

(** C8.  Size check on read: an object shorter than 32 octets is refused
    as corrupted, whatever the key, so before a decipher is created; an
    object of at least 32 octets is read with its first 16 octets as
    nonce, its last 16 octets as expected tag and the octets between as
    ciphertext. *)
Theorem C8_container_size_check (cfg : config) (self : this)
    (filename : jsstring) (w : world) (content : list byte) :
  constructor cfg = Ok self ->
  files w !! filename = Some content ->
  (length content < 32 -> getStream self filename w = Throw FileCorruptedTooSmall)
  /\ (32 <= length content ->
      let iv := take 16 content in
      let tag := drop (length content - 16) content in
      let ct := take (length content - 32) (drop 16 content) in
      getStream self filename w
      = (let? d := Gcm.createDecipheriv (Some (KeyBuffer (key self))) iv in
         let? d := Gcm.setAuthTag d tag in
         Ok (pipe (push ct) d))).
Proof.
  intros [Hivl Htagl]%constructor_lengths Hfile. split.
  - intros Hl. unfold getStream, getStats. rewrite Hfile. cbn [bind].
    rewrite Hivl, Htagl. by rewrite bool_decide_eq_true_2.
  - intros Hl iv tag ct.
    apply getStream_layout; [done|done| |subst iv|subst tag].
    + rewrite Hfile. f_equal. subst iv tag ct.
      rewrite <- (take_drop 16 content) at 1. f_equal.
      rewrite <- (take_drop (length content - 32) (drop 16 content)) at 1. f_equal.
      rewrite drop_drop. f_equal. lia.
    + rewrite length_take. lia.
    + rewrite length_drop. lia.
Qed.

(** C10.  Sources of one to three octets: whatever the octets are, the
    pipeline runs through with the validator still undecided, the
    write succeeds, and the stored object has 32 octets more than the
    source. *)
Theorem C10_short_sources_bypass_validation (cfg : config) (self : this)
    (inputStream : list (list byte)) (filename : jsstring) (w : world) :
  tag_is_128_bits ->
  constructor cfg = Ok self -> length (key self) = 32 ->
  1 <= length (concat inputStream) <= 3 ->
  exists s w' content,
    run_pipeline self inputStream filename w = (Ok (s, None), w')
    /\ isValidated (st_validator s) = false
    /\ validationError (st_validator s) = None
    /\ saveLocalStream self inputStream filename w
       = (Ok {| checksum := Buffer.toString_hex (sha256 (concat inputStream));
                isEncrypted := true |}, w')
    /\ files w' !! filename = Some content
    /\ length content = 32 + length (concat inputStream).
Proof.
  intros Htag [Hivl Htagl]%constructor_lengths Hkey Hlen.
  assert (length (concat inputStream) < 4) as Hshort by lia.
  destruct (saveLocalStream_accepted self inputStream filename w _
              Htag Hivl Htagl Hkey eq_refl (or_introl Hshort))
    as (s & w' & Hrun & He & Hv & Hsave & Hfile & _).
  exists s, w', (container (key self) (fst (randomBytes 16 w)) (concat inputStream)).
  rewrite bool_decide_eq_false_2 in Hv by lia.
  repeat split; try done.
  unfold container.
  rewrite !length_app, GcmFacts.length_xor_stream, Htag, randomBytes_length. lia.
Qed.

End StorageClaims.

(** C1 on a five-octet source that starts with the ZIP signature and
    arrives in two chunks. *)
Lemma C1_witness :
  exists w',
    @LocalStorageStrategy.saveLocalStream Sample.crypto Sample.self
      [[Byte.x50; Byte.x4b]; [Byte.x03; Byte.x04; Byte.x00]] Sample.name Sample.w0
    = (Ok {| LocalStorageStrategy.checksum :=
               Buffer.toString_hex
                 (Sample.digest [Byte.x50; Byte.x4b; Byte.x03; Byte.x04; Byte.x00]);
             LocalStorageStrategy.isEncrypted := true |}, w')
    /\ @LocalStorageStrategy.getStream Sample.crypto Sample.self Sample.name w'
       = Ok {| emitted := [Byte.x50; Byte.x4b; Byte.x03; Byte.x04; Byte.x00];
               failure := None |}.
Proof.
  apply (@C1_object_round_trip Sample.crypto Sample.cfg Sample.self
           [[Byte.x50; Byte.x4b]; [Byte.x03; Byte.x04; Byte.x00]] Sample.name Sample.w0).
  - exact SampleFacts.sample_tag_is_128_bits.
  - reflexivity.
  - reflexivity.
  - exists FileValidation.zip. reflexivity.
Defined.

(** C6 on a five-octet source that is no accepted type and arrives in
    two chunks, the fourth octet in the second. *)
Lemma C6_witness :
  let inputStream := [[Byte.x50; Byte.x4b]; [Byte.x03; Byte.x05; Byte.x00]] in
  exists before chunk after s w1 w',
    inputStream = before ++ chunk :: after
    /\ length (concat before) < 4 <= length (concat before ++ chunk)
    /\ @LocalStorageStrategy.run_pipeline Sample.crypto Sample.self
         inputStream Sample.name Sample.w0
       = (Ok (s, Some MagicByteMismatch), w1)
    /\ LocalStorageStrategy.validationError (LocalStorageStrategy.st_validator s)
       = Some MagicByteMismatch
    /\ LocalStorageStrategy.st_written s
       `prefix_of` @Spec.iv_and_ciphertext Sample.crypto (LocalStorageStrategy.key Sample.self)
                     (fst (randomBytes 16 Sample.w0)) (concat before)
    /\ (forall partial, files w1 !! Sample.name = Some partial ->
          partial
          `prefix_of` @Spec.iv_and_ciphertext Sample.crypto
                        (LocalStorageStrategy.key Sample.self)
                        (fst (randomBytes 16 Sample.w0)) (concat before))
    /\ (forall first others partial,
          inputStream = first :: others -> 4 <= length first ->
          files w1 !! Sample.name = Some partial -> partial = [])
    /\ @LocalStorageStrategy.saveLocalStream Sample.crypto Sample.self
         inputStream Sample.name Sample.w0
       = (Throw MagicByteMismatch, w')
    /\ files w' !! Sample.name = None
    /\ forall other, other <> Sample.name -> files w' !! other = files Sample.w0 !! other.
Proof.
  apply (@C6_signature_rejection Sample.crypto Sample.cfg Sample.self
           [[Byte.x50; Byte.x4b]; [Byte.x03; Byte.x05; Byte.x00]] Sample.name Sample.w0).
  - reflexivity.
  - reflexivity.
  - simpl. lia.
  - reflexivity.
Defined.

(** C7 on the source without chunks. *)
Lemma C7_witness :
  exists w' iv tag,
    @LocalStorageStrategy.saveLocalStream Sample.crypto Sample.self [] Sample.name Sample.w0
    = (Ok {| LocalStorageStrategy.checksum := Buffer.toString_hex (Sample.digest []);
             LocalStorageStrategy.isEncrypted := true |}, w')
    /\ files w' !! Sample.name = Some (iv ++ tag)
    /\ iv = fst (randomBytes 16 Sample.w0) /\ length iv = 16
    /\ tag = Sample.tag (LocalStorageStrategy.key Sample.self) iv [] /\ length tag = 16
    /\ LocalStorageStrategy.getStats Sample.name w' = Ok 32
    /\ @LocalStorageStrategy.getStream Sample.crypto Sample.self Sample.name w'
       = Ok {| emitted := []; failure := None |}.
Proof.
  apply (@C7_empty_object Sample.crypto Sample.cfg Sample.self [] Sample.name Sample.w0).
  - exact SampleFacts.sample_tag_is_128_bits.
  - reflexivity.
  - reflexivity.
  - reflexivity.
Defined.

(** C8 on a three-octet file. *)
Lemma C8_witness :
  @LocalStorageStrategy.getStream Sample.crypto Sample.self Sample.name Sample.w_short
  = Throw FileCorruptedTooSmall.
Proof.
  apply (@C8_container_size_check Sample.crypto Sample.cfg Sample.self
           Sample.name Sample.w_short [Byte.x01; Byte.x02; Byte.x03]).
  - reflexivity.
  - vm_compute. reflexivity.
  - simpl. lia.
Defined.

(** C10 on a two-octet source in two chunks. *)
Lemma C10_witness :
  exists s w' content,
    @LocalStorageStrategy.run_pipeline Sample.crypto Sample.self
      [[Byte.x00]; [Byte.x01]] Sample.name Sample.w0 = (Ok (s, None), w')
    /\ LocalStorageStrategy.isValidated (LocalStorageStrategy.st_validator s) = false
    /\ LocalStorageStrategy.validationError (LocalStorageStrategy.st_validator s) = None
    /\ @LocalStorageStrategy.saveLocalStream Sample.crypto Sample.self
         [[Byte.x00]; [Byte.x01]] Sample.name Sample.w0
       = (Ok {| LocalStorageStrategy.checksum :=
                  Buffer.toString_hex (Sample.digest [Byte.x00; Byte.x01]);
                LocalStorageStrategy.isEncrypted := true |}, w')
    /\ files w' !! Sample.name = Some content
    /\ length content = 34.
Proof.
  apply (@C10_short_sources_bypass_validation Sample.crypto Sample.cfg Sample.self
           [[Byte.x00]; [Byte.x01]] Sample.name Sample.w0).
  - exact SampleFacts.sample_tag_is_128_bits.
  - reflexivity.
  - reflexivity.
  - simpl. lia.
Defined.

(** ** Key parsing *)
Module KeyFacts.
Import Buffer.

Lemma is_hex_digit_unhex (c : code_unit) :
  JsString.is_hex_digit c = true -> exists v, unhex c = Some v.
Proof.
  unfold JsString.is_hex_digit, unhex. intros Hc.
  destruct ((48 <=? c)%N && (c <=? 57)%N); [eauto|].
  destruct ((97 <=? c)%N && (c <=? 102)%N); [eauto|].
  destruct ((65 <=? c)%N && (c <=? 70)%N); [eauto|discriminate].
Qed.

(** A text of [2 * n] hexadecimal digits decodes to [n] octets. *)
Lemma from_hex_length (n : nat) (s : jsstring) :
  length s = 2 * n -> forallb JsString.is_hex_digit s = true -> length (from_hex s) = n.
Proof.
  revert s. induction n as [|n IH]; intros s Hl Hhex.
  - by destruct s.
  - destruct s as [|a [|b rest]]; cbn in Hl; try lia.
    cbn [forallb] in Hhex. apply andb_true_iff in Hhex as [Ha Hhex].
    apply andb_true_iff in Hhex as [Hb Hhex].
    destruct (is_hex_digit_unhex a Ha) as [va Eva].
    destruct (is_hex_digit_unhex b Hb) as [vb Evb].
    cbn [from_hex]. rewrite Eva, Evb. cbn [length]. f_equal. apply IH; [lia|done].
Qed.

(** ASCII text has one octet per character. *)
Lemma from_utf8_ascii_length (s : jsstring) :
  Forall (fun c => (c < 128)%N) s -> length (from_utf8 s) = length s.
Proof.
  induction 1 as [|c s Hc _ IH]; [reflexivity|].
  cbn [from_utf8]. apply N.ltb_lt in Hc. rewrite Hc. cbn [length]. by rewrite IH.
Qed.

Lemma padEnd_slice_length (s : jsstring) :
  length (JsString.slice0 32 (JsString.padEnd 32 s)) = 32.
Proof.
  unfold JsString.slice0, JsString.padEnd.
  rewrite length_take, length_app, length_replicate. lia.
Qed.

Lemma padEnd_slice_ascii (s : jsstring) :
  Forall (fun c => (c < 128)%N) s ->
  Forall (fun c => (c < 128)%N) (JsString.slice0 32 (JsString.padEnd 32 s)).
Proof.
  intros Hs. unfold JsString.slice0, JsString.padEnd.
  apply Forall_take, Forall_app. split; [done|].
  apply Forall_replicate. lia.
Qed.

End KeyFacts.

(** ** Claims about key parsing *)
Section KeyClaims.
Context `{Crypto} `{Json}.

(** C9 as amended.  Both parsers decode a key of 64 hexadecimal digits to
    the same 32 octets.  For the other keys only the storage pipeline
    pads or cuts: a key whose length is not 64 is padded with spaces, or
    cut, to 32 characters, which are 32 octets when the key is ASCII.
    The token codec keeps such a key as the string it is, neither padded
    nor cut: cipher and decipher accept it when its UTF-8 text has 32
    octets and throw the key-length error otherwise, so that with such
    a first key and a non-empty nonce [encrypt] returns a token in the
    first case and throws for every payload in the second. *)
Theorem C9_key_parsing (key : jsstring) :
  (JsString.test_hex key = true -> length key = 64 ->
   LocalStorageStrategy._parseKey (KeyString key) = Buffer.from_hex key
   /\ Encryption.parsed_key key = KeyBuffer (Buffer.from_hex key)
   /\ length (Buffer.from_hex key) = 32)
  /\ (length key <> 64 -> Forall (fun c => (c < 128)%N) key ->
      LocalStorageStrategy._parseKey (KeyString key)
      = Buffer.from_utf8 (take 32 (key ++ replicate (32 - length key) 32%N))
      /\ length (LocalStorageStrategy._parseKey (KeyString key)) = 32)
  /\ (~ (JsString.test_hex key = true /\ length key = 64) ->
      Encryption.parsed_key key = KeyString key
      /\ key_bytes (Encryption.parsed_key key) = Buffer.from_utf8 key
      /\ (length (Buffer.from_utf8 key) = 32 ->
          (forall iv, iv <> [] ->
             (exists c, Gcm.createCipheriv (Some (Encryption.parsed_key key)) iv = Ok c)
             /\ (exists d, Gcm.createDecipheriv (Some (Encryption.parsed_key key)) iv = Ok d))
          /\ (forall cfg rest p,
                encryptionKeys cfg = key :: rest -> encryptionIv cfg <> [] ->
                exists token, Encryption.encrypt cfg p = Ok token))
      /\ (length (Buffer.from_utf8 key) <> 32 ->
          (forall iv, iv <> [] ->
             Gcm.createCipheriv (Some (Encryption.parsed_key key)) iv = Throw InvalidKeyLength
             /\ Gcm.createDecipheriv (Some (Encryption.parsed_key key)) iv
                = Throw InvalidKeyLength)
          /\ (forall cfg rest p,
                encryptionKeys cfg = key :: rest -> encryptionIv cfg <> [] ->
                Encryption.encrypt cfg p = Throw InvalidKeyLength))).
Proof.
  split; [|split].
  - intros Hhex Hlen.
    unfold LocalStorageStrategy._parseKey, Encryption.parsed_key.
    rewrite Hhex, bool_decide_eq_true_2 by done. repeat split.
    apply KeyFacts.from_hex_length; [lia|].
    unfold JsString.test_hex in Hhex. by apply andb_true_iff in Hhex as [_ ?].
  - intros Hlen Hascii. unfold LocalStorageStrategy._parseKey.
    rewrite bool_decide_eq_false_2 by done. split; [reflexivity|].
    rewrite KeyFacts.from_utf8_ascii_length by by apply KeyFacts.padEnd_slice_ascii.
    apply KeyFacts.padEnd_slice_length.
  - intros Hnot.
    assert (Encryption.parsed_key key = KeyString key) as Hparsed.
    { unfold Encryption.parsed_key.
      destruct (JsString.test_hex key) eqn:Ehex; cbn [andb]; [|done].
      by rewrite bool_decide_eq_false_2 by (intros E; by apply Hnot). }
    rewrite Hparsed. cbn [key_bytes].
    split; [done|]. split; [done|]. split.
    + intros Hlen. split.
      * intros iv Hiv. unfold Gcm.createCipheriv, Gcm.createDecipheriv. cbn [key_bytes].
        rewrite bool_decide_eq_false_2 by (intros E; by apply Hiv, nil_length_inv).
        rewrite bool_decide_eq_true_2 by done. eauto.
      * intros cfg rest p Hcfg Hiv. eexists.
        apply (EncryptionFacts.encrypt_Ok cfg p (KeyString key)); [|done|done].
        unfold Encryption.PARSED_KEYS. by rewrite Hcfg; cbn [map]; rewrite Hparsed.
    + intros Hlen. split.
      * intros iv Hiv. unfold Gcm.createCipheriv, Gcm.createDecipheriv. cbn [key_bytes].
        rewrite bool_decide_eq_false_2 by (intros E; by apply Hiv, nil_length_inv).
        by rewrite bool_decide_eq_false_2 by done.
      * intros cfg rest p Hcfg Hiv.
        unfold Encryption.encrypt, Encryption.PARSED_KEYS, Encryption.PARSED_IV.
        rewrite Hcfg. cbn [map]. rewrite Hparsed.
        change ((KeyString key :: map Encryption.parsed_key rest) !! 0)
          with (Some (KeyString key)).
        unfold Gcm.createCipheriv. cbn [key_bytes].
        rewrite bool_decide_eq_false_2
          by (intros E; apply Hiv, EncryptionFacts.from_utf8_nil_inv, nil_length_inv, E).
        by rewrite bool_decide_eq_false_2 by done.
Qed.

End KeyClaims.

(** C9 as stated fails.  The configuration schema admits a single
    passphrase of 39 characters.  The token codec leaves it at its 39
    octets, so that [encrypt] is refused by the cipher, where the
    storage pipeline cuts the same passphrase to 32 octets. *)
Lemma C9_counterexample :
  Config.security Examples.long_passphrase (Sample.js "0123456789abcdef")
  = Some Examples.cfg_long_passphrase
  /\ encryptionKeys Examples.cfg_long_passphrase = [Examples.long_passphrase]
  /\ JsString.test_hex Examples.long_passphrase = false
  /\ length Examples.long_passphrase = 39
  /\ length (key_bytes (Encryption.parsed_key Examples.long_passphrase)) = 39
  /\ @Encryption.encrypt Sample.crypto Sample.json Examples.cfg_long_passphrase Sample.LTrue
     = Throw InvalidKeyLength
  /\ length (LocalStorageStrategy._parseKey (KeyString Examples.long_passphrase)) = 32.
Proof. repeat split; vm_compute; reflexivity. Qed.

(** C9 on the same passphrase: 32 octets in the storage pipeline, the
    unchanged string in the token codec, which the cipher refuses. *)
Lemma C9_witness :
  length (LocalStorageStrategy._parseKey (KeyString Examples.long_passphrase)) = 32
  /\ Encryption.parsed_key Examples.long_passphrase = KeyString Examples.long_passphrase
  /\ forall p, @Encryption.encrypt Sample.crypto Sample.json Examples.cfg_long_passphrase p
               = Throw InvalidKeyLength.
Proof.
  destruct (@C9_key_parsing Sample.crypto Sample.json Examples.long_passphrase)
    as (_ & Hstorage & Htoken).
  split; [|split].
  - apply Hstorage.
    + vm_compute. lia.
    + unfold Examples.long_passphrase, Sample.js. simpl.
      repeat (constructor; [reflexivity|]). constructor.
  - apply Htoken. intros [Hhex _]. vm_compute in Hhex. discriminate.
  - intros p.
    destruct Htoken as (_ & _ & _ & Hrefused);
      [intros [Hhex _]; vm_compute in Hhex; discriminate|].
    destruct Hrefused as [_ Hencrypt]; [vm_compute; lia|].
    apply (Hencrypt Examples.cfg_long_passphrase []); [reflexivity|].
    intros Hiv. vm_compute in Hiv. discriminate.
Defined.

(** C4 on three tokens: one with two fields, the sample token with one
    more hexadecimal digit at its end, and the sample token with its
    last hexadecimal digit changed, which no key authenticates. *)
Lemma C4_witness :
  @Encryption.decrypt Sample.crypto Sample.json Sample.cfg (Sample.js "00ff:00ff")
  = Sample.LNull
  /\ @Encryption.decrypt Sample.crypto Sample.json Sample.cfg
       (Sample.token ++ Sample.js "a")
     = Sample.LNull
  /\ @Encryption.decrypt Sample.crypto Sample.json Sample.cfg_rotated
       (removelast Sample.token ++ Sample.js "7")
     = Sample.LNull.
Proof.
  split; [|split].
  - apply (@C4_decrypt_fails_closed Sample.crypto Sample.json Sample.cfg).
    vm_compute. lia.
  - destruct (@C4_decrypt_fails_closed Sample.crypto Sample.json Sample.cfg
                (Sample.token ++ Sample.js "a")) as [_ Hfields].
    edestruct Hfields as (Hodd & _); [vm_compute; reflexivity|].
    apply Hodd. vm_compute. lia.
  - destruct (@C4_decrypt_fails_closed Sample.crypto Sample.json Sample.cfg_rotated
                (removelast Sample.token ++ Sample.js "7")) as [_ Hfields].
    edestruct Hfields as (_ & _ & Hnone & _); [vm_compute; reflexivity|].
    apply Hnone.
    intros key Hkey. apply list_elem_of_In in Hkey. simpl in Hkey.
    destruct Hkey as [<-|[<-|[]]]; vm_compute; reflexivity.
Defined.

(** * Further properties of the modelled code *)

(** ** The three ways [saveLocalStream] ends *)
Module BehaviourFacts.
Section BehaviourFacts.
Context `{Crypto}.
Import LocalStorageStrategy Spec StorageFacts Behaviour.

(** A key that is not 32 octets long is refused before the pipeline is
    built: only the nonce has been drawn. *)
Lemma save_unusable_key (self : this) (inputStream : list (list byte))
    (filename : jsstring) (w : world) :
  ivLength self = 16 -> length (key self) <> 32 ->
  saveLocalStream self inputStream filename w
  = (Throw InvalidKeyLength, snd (randomBytes 16 w)).
Proof.
  intros Hivl Hkey. unfold saveLocalStream, run_pipeline. rewrite Hivl.
  unfold randomBytes at 1. cbv iota beta.
  unfold Gcm.createCipheriv. cbn [key_bytes].
  rewrite bool_decide_eq_false_2 by (rewrite length_map, length_seq; lia).
  rewrite bool_decide_eq_false_2 by done. reflexivity.
Qed.

Lemma lets_through_spec (B : list byte) :
  lets_through B = true
  <-> length B < 4 \/ is_Some (FileValidation.validateBuffer (take 4 B)).
Proof.
  unfold lets_through. rewrite orb_true_iff, !bool_decide_eq_true. reflexivity.
Qed.

Lemma not_lets_through_spec (B : list byte) :
  lets_through B = false
  <-> 4 <= length B /\ FileValidation.validateBuffer (take 4 B) = None.
Proof.
  unfold lets_through. rewrite orb_false_iff, !bool_decide_eq_false. split.
  - intros [Hl Hs]. split; [lia|].
    destruct (FileValidation.validateBuffer _); [|done]. exfalso. apply Hs. eauto.
  - intros [Hl Hs]. split; [lia|]. rewrite Hs. by intros [? ?].
Qed.

(** A source that is let through is stored as its container. *)
Lemma save_let_through (self : this) (inputStream : list (list byte))
    (filename : jsstring) (w : world) :
  ivLength self = 16 -> length (key self) = 32 ->
  lets_through (concat inputStream) = true ->
  let iv := fst (randomBytes 16 w) in
  let w1 := snd (randomBytes 16 w) in
  saveLocalStream self inputStream filename w
  = (Ok {| checksum := Buffer.toString_hex (sha256 (concat inputStream));
           isEncrypted := true |},
     with_files w1 (<[filename := container (key self) iv (concat inputStream)]> (files w1))).
Proof.
  intros Hivl Hkey Hacc%lets_through_spec iv w1.
  pose proof (run_pipeline_started self inputStream filename w Hivl Hkey) as Hrun.
  cbv zeta in Hrun.
  destruct (PipelineFacts.pipeline_accepts (key self) (fst (randomBytes 16 w))
              inputStream [] _ (PipelineFacts.initial_stages_after _ _) Hacc)
    as (s & Hp & Hh & _ & _ & Hw).
  cbn [app] in Hh, Hw. rewrite Hp in Hrun. cbn [fst snd file_when_settled] in Hrun.
  unfold saveLocalStream. rewrite Hrun, Hh, Hw. reflexivity.
Qed.

(** Any other source is rejected and leaves no file under the name. *)
Lemma save_rejected (self : this) (inputStream : list (list byte))
    (filename : jsstring) (w : world) :
  ivLength self = 16 -> length (key self) = 32 ->
  lets_through (concat inputStream) = false ->
  let w1 := snd (randomBytes 16 w) in
  saveLocalStream self inputStream filename w
  = (Throw MagicByteMismatch, with_files w1 (base.delete filename (files w1))).
Proof.
  intros Hivl Hkey [Hl Hs]%not_lets_through_spec w1.
  pose proof (run_pipeline_started self inputStream filename w Hivl Hkey) as Hrun.
  cbv zeta in Hrun.
  destruct (PipelineFacts.pipeline_rejects (key self) (fst (randomBytes 16 w))
              inputStream [] _ (PipelineFacts.initial_stages_after _ _))
    as (s & before & chunk & after & _ & _ & Hp & He & _ & Hw); [cbn; lia|done..|].
  rewrite Hp in Hrun. cbn [fst snd file_when_settled] in Hrun.
  unfold saveLocalStream. rewrite Hrun. unfold delete.
  cbn [with_files files]. rewrite lookup_insert_eq, He. cbn [default].
  cbn [with_files files entropy drawn]. by rewrite delete_insert_eq.
Qed.

(** The size of a container. *)
Lemma length_container (key iv B : list byte) :
  tag_is_128_bits -> length (container key iv B) = length iv + length B + 16.
Proof.
  intros Htag. unfold container.
  rewrite !length_app, GcmFacts.length_xor_stream, Htag. lia.
Qed.

End BehaviourFacts.
End BehaviourFacts.

(** ** [saveLocalStream], [getStats], [delete], [getStream] together *)
Section StorageBehaviour.
Context `{Crypto}.
Import LocalStorageStrategy Spec StorageFacts Behaviour BehaviourFacts.

(** X1.  [saveLocalStream] depends on the source only through its octets:
    however the source is cut into chunks, the value returned (or the
    error thrown) and the world left behind are those of [save_outcome]
    for the concatenation. *)
Theorem X1_save_depends_on_octets_only (cfg : config) (self : this)
    (inputStream : list (list byte)) (filename : jsstring) (w : world) :
  constructor cfg = Ok self ->
  saveLocalStream self inputStream filename w
  = save_outcome self (concat inputStream) filename w.
Proof.
  intros [Hivl _]%constructor_lengths. unfold save_outcome.
  unfold randomBytes at 1. cbv iota beta.
  case_bool_decide as Hkey.
  - destruct (lets_through (concat inputStream)) eqn:Hlet.
    + by rewrite save_let_through.
    + by rewrite save_rejected.
  - by rewrite save_unusable_key.
Qed.



(** X4.  After an upload [getStats] reports 32 octets more than the source
    had when the source was let through, and finds no file when it was
    rejected. *)
Theorem X4_size_after_upload (cfg : config) (self : this)
    (inputStream : list (list byte)) (filename : jsstring) (w : world) :
  tag_is_128_bits ->
  constructor cfg = Ok self -> length (key self) = 32 ->
  let w' := snd (saveLocalStream self inputStream filename w) in
  getStats filename w'
  = if lets_through (concat inputStream)
    then Ok (32 + length (concat inputStream))
    else Throw ENOENT.
Proof.
  intros Htag [Hivl _]%constructor_lengths Hkey.
  destruct (lets_through (concat inputStream)) eqn:Hlet.
  - rewrite save_let_through by done. unfold getStats.
    cbn [snd fst randomBytes with_files files].
    rewrite lookup_insert_eq, length_container by done.
    rewrite length_map, length_seq. f_equal. lia.
  - rewrite save_rejected by done. unfold getStats. cbn.
    by rewrite lookup_delete_eq.
Qed.

(** X5.  With a key that does not parse to 32 octets nothing works and
    nothing is touched: every upload throws the key-length error without
    looking at the source and leaves the files as they were, and so does
    every read of an object of at least 32 octets. *)
Theorem X5_unusable_key (cfg : config) (self : this)
    (inputStream : list (list byte)) (filename : jsstring) (w : world) :
  constructor cfg = Ok self -> length (key self) <> 32 ->
  fst (saveLocalStream self inputStream filename w) = Throw InvalidKeyLength
  /\ files (snd (saveLocalStream self inputStream filename w)) = files w
  /\ forall name content,
       files w !! name = Some content -> 32 <= length content ->
       getStream self name w = Throw InvalidKeyLength.
Proof.
  intros [Hivl Htagl]%constructor_lengths Hkey.
  rewrite save_unusable_key by done. repeat split.
  intros name content Hfile Hlen.
  unfold getStream, getStats. rewrite Hfile. cbn [bind].
  rewrite Hivl, Htagl, bool_decide_eq_false_2 by lia.
  unfold Gcm.createDecipheriv, fd_read. cbn [key_bytes].
  rewrite bool_decide_eq_false_2 by (rewrite length_take, length_drop; lia).
  by rewrite bool_decide_eq_false_2.
Qed.


(** X7.  What decides a read: for an object laid out as 16 octets, any
    octets, 16 octets, the stream delivers the octets between decrypted
    under the first 16 as nonce, and then ends without error exactly
    when the last 16 are the tag of the octets between.  Otherwise it
    fails with the authentication error: after the decrypted octets
    have been delivered when there are octets between; before the
    caller has the stream when there are none, so that the error is an
    uncaught exception of the process and the consumer observes neither
    end nor error. *)
Theorem X7_tag_decides_read (cfg : config) (self : this) (filename : jsstring) (w : world)
    (iv ct tag : list byte) :
  tag_is_128_bits ->
  constructor cfg = Ok self -> length (key self) = 32 ->
  length iv = 16 -> length tag = 16 ->
  files w !! filename = Some (iv ++ ct ++ tag) ->
  getStream self filename w
  = Ok {| emitted := Gcm.xor_stream (key self) iv 0 ct;
          failure := if bool_decide (tag = gcm_tag (key self) iv ct)
                     then None
                     else Some (if bool_decide (ct = [])
                                then UncaughtException AuthenticationFailed
                                else AuthenticationFailed) |}.
Proof.
  intros Htag [Hivl Htagl]%constructor_lengths Hkey Hiv Hlen Hfile.
  rewrite (getStream_layout self filename w _ _ _ Hivl Htagl Hfile Hiv Hlen).
  unfold Gcm.createDecipheriv. cbn [key_bytes].
  rewrite bool_decide_eq_false_2 by lia.
  rewrite bool_decide_eq_true_2 by done. cbn [bind].
  unfold Gcm.setAuthTag. rewrite Hlen, GcmFacts.valid_gcm_tag_length_16. cbn [bind].
  erewrite pipe_push by reflexivity. cbn [Gcm.d_key Gcm.d_iv].
  rewrite Hlen, take_ge by (rewrite Htag; lia). reflexivity.
Qed.

End StorageBehaviour.

(** ** [validateBuffer] *)
Module SignatureFacts.
Import FileValidation.

Lemma signature_matches_lookup (buffer numbers : list byte) :
  signature_matches buffer numbers = true
  <-> forall i, i < length numbers -> buffer !! i = numbers !! i.
Proof.
  unfold signature_matches. rewrite forallb_forall. split.
  - intros Hall i Hi. eapply bool_decide_eq_true_1, Hall. apply in_seq. lia.
  - intros Hall i Hi%in_seq. apply bool_decide_eq_true_2, Hall. lia.
Qed.

(** The inner loop finds no difference exactly when the signature is a
    prefix of the buffer. *)
Lemma signature_matches_prefix (buffer numbers : list byte) :
  signature_matches buffer numbers = true <-> numbers `prefix_of` buffer.
Proof.
  rewrite signature_matches_lookup. split.
  - intros Hall. exists (drop (length numbers) buffer).
    rewrite <- (take_drop (length numbers) buffer) at 1. f_equal.
    apply list_eq. intros i. destruct (decide (i < length numbers)) as [Hi|Hi].
    + by rewrite lookup_take_lt, Hall.
    + rewrite lookup_take_ge by lia. symmetry. apply lookup_ge_None. lia.
  - intros [k ->] i Hi. by rewrite lookup_app_l.
Qed.

End SignatureFacts.

(** X8.  [validateBuffer] answers with a type exactly when the buffer has
    at least four octets and begins with the magic number listed for
    that type. *)
Theorem X8_validateBuffer_accepts (buffer : list byte) (e : FileValidation.ext) :
  FileValidation.validateBuffer buffer = Some e
  <-> 4 <= length buffer
      /\ exists numbers,
           (e, numbers) ∈ FileValidation.MAGIC_NUMBERS /\ numbers `prefix_of` buffer.
Proof.
  unfold FileValidation.validateBuffer. split.
  - case_bool_decide as Hl; [discriminate|].
    destruct (List.find _ _) as [[e' numbers]|] eqn:Hfind; [|discriminate].
    intros [= <-]. apply find_some in Hfind as [Hin Hmatch]. split; [lia|].
    exists numbers. split; [by apply list_elem_of_In|].
    by apply SignatureFacts.signature_matches_prefix.
  - intros (Hl & numbers & Hin & [k ->]).
    rewrite bool_decide_eq_false_2 by lia.
    apply list_elem_of_In in Hin. cbn in Hin.
    destruct Hin as [Hin|[Hin|[Hin|[Hin|[Hin|[Hin|[]]]]]]];
      injection Hin as <- <-; reflexivity.
Qed.

(** X9.  [validateBuffer] refuses every buffer of fewer than four octets,
    the three-octet JPEG magic number included, and from four octets on
    its answer does not change when octets are appended. *)
Theorem X9_validateBuffer_reads_four_octets (buffer more : list byte) :
  (length buffer < 4 -> FileValidation.validateBuffer buffer = None)
  /\ (4 <= length buffer ->
      FileValidation.validateBuffer (buffer ++ more) = FileValidation.validateBuffer buffer).
Proof.
  split.
  - apply FileValidationFacts.validateBuffer_short.
  - intros Hl.
    rewrite (FileValidationFacts.validateBuffer_take (buffer ++ more))
      by (rewrite length_app; lia).
    rewrite take_app_le by done. symmetry.
    by apply FileValidationFacts.validateBuffer_take.
Qed.

(** ** Tokens *)
Module TokenFacts.
Section TokenFacts.
Context `{Crypto} `{Json}.
Import Encryption Spec EncryptionFacts Behaviour.

Lemma hex_digit_lower (n : N) : (n < 16)%N -> is_lower_hex_digit (Buffer.hex_digit n) = true.
Proof.
  intros Hn. unfold is_lower_hex_digit, Buffer.hex_digit.
  destruct (N.ltb_spec n 10).
  - apply orb_true_iff. left. apply andb_true_iff. split; apply N.leb_le; lia.
  - apply orb_true_iff. right. apply andb_true_iff. split; apply N.leb_le; lia.
Qed.

Lemma toString_hex_lower (b : list byte) :
  Forall (fun c => is_lower_hex_digit c = true) (Buffer.toString_hex b).
Proof.
  induction b as [|x b IH]; [constructor|].
  destruct (BufferFacts.nibbles x) as (Hh & Hl & _).
  cbn [Buffer.toString_hex flat_map app].
  repeat constructor; auto using hex_digit_lower.
Qed.

(** The fields of a token built from three octet strings. *)
Lemma split_token_of (iv tag ct : list byte) :
  JsString.split JsString.colon (token_of iv tag ct)
  = [Buffer.toString_hex iv; Buffer.toString_hex tag; Buffer.toString_hex ct].
Proof. apply split_token. Qed.

(** [encrypt] returns the token of the configured nonce, the tag and
    the ciphertext of the JSON text under the first key. *)
Lemma encrypt_token_of (cfg : config) (p : payload) (token : jsstring) :
  encrypt cfg p = Ok token ->
  exists key,
    PARSED_KEYS cfg !! 0 = Some key
    /\ length (key_bytes key) = 32
    /\ Buffer.from_utf8 (encryptionIv cfg) <> []
    /\ let iv := Buffer.from_utf8 (encryptionIv cfg) in
       let ct := Gcm.xor_stream (key_bytes key) iv 0 (Buffer.from_utf8 (JSON_stringify p)) in
       token = token_of iv (gcm_tag (key_bytes key) iv ct) ct.
Proof.
  unfold encrypt, PARSED_IV, Gcm.createCipheriv.
  destruct (PARSED_KEYS cfg !! 0) as [key|]; [|discriminate].
  destruct (bool_decide (length _ = 0)) eqn:Eiv; [discriminate|].
  destruct (bool_decide (length (key_bytes key) = 32)) eqn:Ek; [|discriminate].
  cbn. rewrite app_nil_r. intros [= <-].
  apply bool_decide_eq_true in Ek. apply bool_decide_eq_false in Eiv.
  exists key. repeat split; [done|].
  intros E. apply Eiv. by rewrite E.
Qed.

(** [decrypt] of a well-formed token runs the key loop on its octets. *)
Lemma decrypt_token_of (cfg : config) (iv tag ct : list byte) :
  decrypt cfg (token_of iv tag ct)
  = decrypt_loop (PARSED_KEYS cfg) iv tag (Buffer.toString_hex ct).
Proof.
  unfold decrypt. by rewrite split_token_of, !BufferFacts.from_hex_toString_hex.
Qed.

Lemma decrypt_with_rejects key iv tag encryptedHex :
  authenticates key iv tag (Buffer.from_hex encryptedHex) = false ->
  exists e, decrypt_with key iv tag encryptedHex = Throw e.
Proof.
  intros Hfail. destruct (decrypt_with key iv tag encryptedHex) as [p|e] eqn:E; [|eauto].
  apply decrypt_with_Ok in E as (_ & Hauth & _). congruence.
Qed.

Lemma bxor_cancel (a b k : byte) :
  Buffer.bxor (Buffer.bxor a k) (Buffer.bxor b k) = Buffer.bxor a b.
Proof.
  apply BufferFacts.to_N_inj. rewrite !BufferFacts.to_N_bxor.
  rewrite (N.lxor_comm (Byte.to_N b)), N.lxor_assoc.
  rewrite <- (N.lxor_assoc (Byte.to_N k)), N.lxor_nilpotent, N.lxor_0_l.
  reflexivity.
Qed.

(** Two texts encrypted from the same position of the same key stream:
    the key stream cancels in the XOR of the ciphertexts. *)
Lemma xor_stream_cancel key iv pos (a b : list byte) :
  zip_with Buffer.bxor (Gcm.xor_stream key iv pos a) (Gcm.xor_stream key iv pos b)
  = zip_with Buffer.bxor a b.
Proof.
  revert pos b. induction a as [|x a IH]; intros pos b; [reflexivity|].
  destruct b as [|y b]; [reflexivity|].
  change (x :: a) with ([x] ++ a). change (y :: b) with ([y] ++ b).
  rewrite !GcmFacts.xor_stream_app. cbn [length app Gcm.xor_stream imap zip_with].
  rewrite bxor_cancel. f_equal. apply IH.
Qed.

End TokenFacts.
End TokenFacts.

Section TokenBehaviour.
Context `{Crypto} `{Json}.
Import Encryption Spec EncryptionFacts Behaviour TokenFacts.

(** X10.  Token format: with a 16-character ASCII nonce configured, every
    token is three fields separated by two colons, a 32-digit nonce, a
    32-digit tag and two digits per octet of the UTF-8 JSON text, all
    digits being lowercase hexadecimal. *)
Theorem X10_token_format (cfg : config) (p : payload) (token : jsstring) :
  tag_is_128_bits ->
  length (encryptionIv cfg) = 16 ->
  Forall (fun c => (c < 128)%N) (encryptionIv cfg) ->
  encrypt cfg p = Ok token ->
  exists nonce tag ct,
    token = nonce ++ [JsString.colon] ++ tag ++ [JsString.colon] ++ ct
    /\ JsString.split JsString.colon token = [nonce; tag; ct]
    /\ length nonce = 32 /\ length tag = 32
    /\ length ct = 2 * length (Buffer.from_utf8 (JSON_stringify p))
    /\ Forall (fun c => is_lower_hex_digit c = true) (nonce ++ tag ++ ct).
Proof.
  intros Htag Hlen Hascii (key & _ & _ & _ & ->)%encrypt_token_of.
  eexists _, _, _. split; [reflexivity|]. split; [apply split_token_of|].
  rewrite !BufferFacts.length_toString_hex, Htag, GcmFacts.length_xor_stream.
  rewrite KeyFacts.from_utf8_ascii_length, Hlen by done.
  repeat split. rewrite !Forall_app. repeat split; apply toString_hex_lower.
Qed.

(** X11.  Key-stream reuse: all tokens of one configuration are encrypted
    with the same key and nonce, so the XOR of the ciphertexts of two
    tokens is the XOR of their plaintexts, octet by octet. *)
Theorem X11_tokens_share_the_key_stream (cfg : config) (p1 p2 : payload)
    (token1 token2 : jsstring) :
  encrypt cfg p1 = Ok token1 ->
  encrypt cfg p2 = Ok token2 ->
  zip_with Buffer.bxor (ciphertext_field token1) (ciphertext_field token2)
  = zip_with Buffer.bxor (Buffer.from_utf8 (JSON_stringify p1))
                         (Buffer.from_utf8 (JSON_stringify p2)).
Proof.
  intros (key1 & Hk1 & _ & _ & ->)%encrypt_token_of
         (key2 & Hk2 & _ & _ & ->)%encrypt_token_of.
  rewrite Hk1 in Hk2. injection Hk2 as <-.
  unfold ciphertext_field. rewrite !split_token_of. cbn [nth].
  rewrite !BufferFacts.from_hex_toString_hex. apply xor_stream_cancel.
Qed.

(** X12.  A forged tag is refused: with one configured key, a token whose
    tag field is replaced by any other 16 octets decrypts to [null]. *)
Theorem X12_forged_tag_is_refused (cfg : config) (K : jsstring) (p : payload)
    (iv tag ct forged : list byte) :
  tag_is_128_bits ->
  encryptionKeys cfg = [K] ->
  encrypt cfg p = Ok (token_of iv tag ct) ->
  length forged = 16 -> forged <> tag ->
  decrypt cfg (token_of iv forged ct) = null.
Proof.
  intros Htag Hcfg (key & Hkey & _ & _ & Htok)%encrypt_token_of Hlen Hne.
  cbv zeta in Htok.
  assert (Buffer.toString_hex tag :: [Buffer.toString_hex ct]
          = Buffer.toString_hex (gcm_tag (key_bytes key) (Buffer.from_utf8 (encryptionIv cfg))
               (Gcm.xor_stream (key_bytes key) (Buffer.from_utf8 (encryptionIv cfg)) 0
                  (Buffer.from_utf8 (JSON_stringify p))))
            :: [Buffer.toString_hex
                  (Gcm.xor_stream (key_bytes key) (Buffer.from_utf8 (encryptionIv cfg)) 0
                     (Buffer.from_utf8 (JSON_stringify p)))]
          /\ Buffer.toString_hex iv
             = Buffer.toString_hex (Buffer.from_utf8 (encryptionIv cfg))) as [Hrest Hiv].
  { apply (f_equal (JsString.split JsString.colon)) in Htok.
    rewrite !split_token_of in Htok. by injection Htok as -> -> ->. }
  injection Hrest as Htag' Hct.
  apply (f_equal Buffer.from_hex) in Htag', Hct, Hiv.
  rewrite !BufferFacts.from_hex_toString_hex in Htag', Hct, Hiv. subst iv tag ct.
  rewrite decrypt_token_of. unfold PARSED_KEYS in *. rewrite Hcfg in *.
  cbn in Hkey. injection Hkey as <-. cbn [map decrypt_loop].
  destruct (decrypt_with_rejects (parsed_key K) (Buffer.from_utf8 (encryptionIv cfg)) forged
              (Buffer.toString_hex
                 (Gcm.xor_stream (key_bytes (parsed_key K))
                    (Buffer.from_utf8 (encryptionIv cfg)) 0
                    (Buffer.from_utf8 (JSON_stringify p))))) as [e ->]; [|done].
  rewrite BufferFacts.from_hex_toString_hex. unfold authenticates.
  rewrite (bool_decide_eq_false_2 (forged = _)); [by rewrite andb_false_r|].
  rewrite Hlen, take_ge by (rewrite Htag; lia). exact Hne.
Qed.

(** X13.  Rotation in general: a token decrypts to its payload under any
    later configuration, whatever nonce is configured then, as long as
    its key is still in the ring and no key placed before it
    authenticates the token. *)
Theorem X13_token_survives_rotation (cfg cfg' : config) (K : jsstring)
    (rest front back : list jsstring) (p : payload) (iv tag ct : list byte) :
  tag_is_128_bits -> json_round_trip ->
  encryptionKeys cfg = K :: rest ->
  encrypt cfg p = Ok (token_of iv tag ct) ->
  encryptionKeys cfg' = front ++ K :: back ->
  (forall K', K' ∈ front -> authenticates (parsed_key K') iv tag ct = false) ->
  decrypt cfg' (token_of iv tag ct) = p.
Proof.
  intros Htag Hjson Hcfg Henc Hcfg' Hfront.
  pose proof Henc as (key & Hkey & Hlen & Hiv & Htok)%encrypt_token_of.
  cbv zeta in Htok.
  unfold PARSED_KEYS in Hkey. rewrite Hcfg in Hkey. injection Hkey as <-.
  apply (f_equal (JsString.split JsString.colon)) in Htok.
  rewrite !split_token_of in Htok. injection Htok as Eiv Etag Ect.
  apply (f_equal Buffer.from_hex) in Eiv, Etag, Ect.
  rewrite !BufferFacts.from_hex_toString_hex in Eiv, Etag, Ect.
  rewrite decrypt_token_of. unfold PARSED_KEYS. rewrite Hcfg', map_app. cbn [map].
  apply (decrypt_loop_first _ _ _ _ (length (map parsed_key front)) (parsed_key K)).
  - by rewrite lookup_app_r, Nat.sub_diag.
  - rewrite Eiv, Etag, Ect. apply decrypt_with_own_key; done.
  - intros j key' Hj Hk. rewrite lookup_app_l in Hk by done.
    apply list_lookup_fmap_Some in Hk as (K' & -> & HK').
    apply decrypt_with_rejects. rewrite BufferFacts.from_hex_toString_hex.
    apply Hfront. by eapply list_elem_of_lookup_2.
Qed.

End TokenBehaviour.

(** ** Keys the parsers cannot turn into 32 octets *)
Module KeyLengthFacts.
Import Buffer.

Lemma unhex_is_hex_digit (c : code_unit) :
  JsString.is_hex_digit c = false -> unhex c = None.
Proof.
  unfold JsString.is_hex_digit, unhex.
  destruct ((48 <=? c)%N && (c <=? 57)%N); [discriminate|].
  destruct ((97 <=? c)%N && (c <=? 102)%N); [discriminate|].
  destruct ((65 <=? c)%N && (c <=? 70)%N); [discriminate|done].
Qed.

(** A text of [2 * n] characters with a character that is no
    hexadecimal digit decodes to fewer than [n] octets. *)
Lemma from_hex_short (n : nat) (s : jsstring) :
  length s = 2 * n -> forallb JsString.is_hex_digit s = false -> length (from_hex s) < n.
Proof.
  revert s. induction n as [|n IH]; intros s Hl Hhex.
  - destruct s; [discriminate|cbn in Hl; lia].
  - destruct s as [|a [|b rest]]; cbn in Hl; try lia.
    cbn [forallb] in Hhex. cbn [from_hex].
    destruct (JsString.is_hex_digit a) eqn:Ea;
      [|rewrite (unhex_is_hex_digit a Ea); cbn; lia].
    destruct (JsString.is_hex_digit b) eqn:Eb;
      [|rewrite (unhex_is_hex_digit b Eb); destruct (unhex a); cbn; lia].
    cbn [andb] in Hhex.
    destruct (KeyFacts.is_hex_digit_unhex a Ea) as [va ->].
    destruct (KeyFacts.is_hex_digit_unhex b Eb) as [vb ->].
    cbn [length]. apply (IH rest) in Hhex; lia.
Qed.

(** UTF-8 never has fewer octets than the text has code units, and has
    more as soon as one code unit is not ASCII. *)
Lemma from_utf8_length (n : nat) (s : jsstring) :
  length s <= n ->
  length s <= length (from_utf8 s)
  /\ (Exists (fun c => (128 <= c)%N) s -> length s < length (from_utf8 s)).
Proof.
  revert s. induction n as [|n IH]; intros s Hn.
  - destruct s; [|cbn in Hn; lia]. split; [done|]. by intros ?%Exists_nil.
  - destruct s as [|c rest]; [split; [done|by intros ?%Exists_nil]|].
    cbn [length] in Hn. destruct (IH rest ltac:(lia)) as [Hge Hgt].
    cbn [from_utf8].
    destruct (N.ltb_spec c 128) as [Hascii|Hwide].
    { cbn [length]. split; [lia|]. intros [?|?]%Exists_cons; [lia|]. apply Hgt in H. lia. }
    destruct (c <? 2048)%N.
    { rewrite length_app. cbn [utf8_2 length]. split; [lia|]. intros _. lia. }
    destruct (is_high_surrogate c).
    { destruct rest as [|d rest'].
      - cbn. split; [lia|]. intros _. lia.
      - destruct (is_low_surrogate d).
        + cbn [length] in Hn. destruct (IH rest' ltac:(lia)) as [Hge' _].
          rewrite length_app. cbn [utf8_4 length]. split; [lia|]. intros _. lia.
        + rewrite length_app. cbn [utf8_3 length]. cbn [length] in Hge.
          split; [lia|]. intros _. lia. }
    destruct (is_low_surrogate c);
      rewrite length_app; cbn [utf8_3 length]; (split; [lia|]); intros _; lia.
Qed.

(** The key of a constructed strategy is the parsed first key. *)
Lemma constructor_key (cfg : config) (self : LocalStorageStrategy.this)
    (K : jsstring) (rest : list jsstring) :
  encryptionKeys cfg = K :: rest ->
  LocalStorageStrategy.constructor cfg = Ok self ->
  LocalStorageStrategy.key self = LocalStorageStrategy._parseKey (KeyString K)
  /\ LocalStorageStrategy.ivLength self = 16.
Proof.
  intros Hcfg. unfold LocalStorageStrategy.constructor. rewrite Hcfg.
  change ((K :: rest) !! 0) with (Some K). by intros [= <-].
Qed.

End KeyLengthFacts.

Section KeyBehaviour.
Context `{Crypto} `{Json}.
Import Behaviour BehaviourFacts.

(** X14.  A raw key of 32 ASCII characters is the same 32 octets for the
    storage pipeline and for the token codec. *)
Theorem X14_raw_32_character_key (K : jsstring) :
  length K = 32 -> Forall (fun c => (c < 128)%N) K ->
  LocalStorageStrategy._parseKey (KeyString K) = key_bytes (Encryption.parsed_key K)
  /\ length (key_bytes (Encryption.parsed_key K)) = 32.
Proof.
  intros Hlen Hascii.
  unfold LocalStorageStrategy._parseKey, Encryption.parsed_key.
  rewrite !bool_decide_eq_false_2 by lia. rewrite andb_false_r. cbn [key_bytes].
  unfold JsString.slice0, JsString.padEnd.
  rewrite Hlen. cbn [Nat.sub replicate]. rewrite app_nil_r, take_ge by lia.
  split; [done|]. by rewrite KeyFacts.from_utf8_ascii_length.
Qed.

(** X15.  A first key of 64 characters one of which is no hexadecimal
    digit is unusable everywhere: the storage pipeline decodes it to
    fewer than 32 octets, so that every upload throws the key-length
    error, and the token codec takes it as a string of at least 64
    octets, so that [encrypt] throws the same error for every payload. *)
Theorem X15_key_of_64_characters_not_all_hex (cfg : config)
    (self : LocalStorageStrategy.this) (K : jsstring) (rest : list jsstring) :
  encryptionKeys cfg = K :: rest ->
  length K = 64 -> JsString.test_hex K = false ->
  LocalStorageStrategy.constructor cfg = Ok self ->
  encryptionIv cfg <> [] ->
  length (LocalStorageStrategy.key self) < 32
  /\ (forall inputStream filename w,
        fst (LocalStorageStrategy.saveLocalStream self inputStream filename w)
        = Throw InvalidKeyLength)
  /\ (forall p, Encryption.encrypt cfg p = Throw InvalidKeyLength).
Proof.
  intros Hcfg Hlen Hhex Hself Hiv.
  assert (forallb JsString.is_hex_digit K = false) as Hall.
  { unfold JsString.test_hex in Hhex. apply andb_false_iff in Hhex as [Hnil|Hall]; [|done].
    apply negb_false_iff, bool_decide_eq_true in Hnil. by rewrite Hnil in Hlen. }
  destruct (KeyLengthFacts.constructor_key cfg self K rest Hcfg Hself) as [Hkey Hivl].
  assert (length (LocalStorageStrategy.key self) < 32) as Hshort.
  { rewrite Hkey. unfold LocalStorageStrategy._parseKey.
    rewrite bool_decide_eq_true_2 by done.
    apply KeyLengthFacts.from_hex_short; [lia|done]. }
  split; [exact Hshort|]. split.
  - intros inputStream filename w.
    rewrite save_unusable_key; [done|done|lia].
  - intros p. unfold Encryption.encrypt, Encryption.PARSED_KEYS, Encryption.PARSED_IV.
    rewrite Hcfg. cbn [map lookup list_lookup]. unfold Gcm.createCipheriv.
    rewrite bool_decide_eq_false_2
      by (intros E; by apply Hiv, EncryptionFacts.from_utf8_nil_inv, nil_length_inv).
    unfold Encryption.parsed_key. rewrite Hhex. cbn [andb key_bytes].
    rewrite bool_decide_eq_false_2; [done|].
    destruct (KeyLengthFacts.from_utf8_length (length K) K) as [Hge _]; lia.
Qed.

(** X16.  A passphrase whose length is not 64 and which has a non-ASCII
    character among its first 32 characters is unusable for storage:
    padded or cut to 32 characters it has more than 32 octets, so that
    every upload throws the key-length error. *)
Theorem X16_passphrase_with_non_ascii_character (cfg : config)
    (self : LocalStorageStrategy.this) (K : jsstring) (rest : list jsstring) :
  encryptionKeys cfg = K :: rest ->
  length K <> 64 -> Exists (fun c => (128 <= c)%N) (take 32 K) ->
  LocalStorageStrategy.constructor cfg = Ok self ->
  32 < length (LocalStorageStrategy.key self)
  /\ forall inputStream filename w,
       fst (LocalStorageStrategy.saveLocalStream self inputStream filename w)
       = Throw InvalidKeyLength.
Proof.
  intros Hcfg Hlen Hwide Hself.
  destruct (KeyLengthFacts.constructor_key cfg self K rest Hcfg Hself) as [Hkey Hivl].
  assert (32 < length (LocalStorageStrategy.key self)) as Hlong.
  { rewrite Hkey. unfold LocalStorageStrategy._parseKey.
    rewrite bool_decide_eq_false_2 by done.
    pose proof (KeyFacts.padEnd_slice_length K) as H32.
    destruct (KeyLengthFacts.from_utf8_length 32
                (JsString.slice0 32 (JsString.padEnd 32 K))) as [_ Hgt]; [lia|].
    rewrite H32 in Hgt. apply Hgt.
    unfold JsString.slice0, JsString.padEnd. rewrite take_app.
    apply Exists_app. by left. }
  split; [exact Hlong|].
  intros inputStream filename w.
  rewrite save_unusable_key; [done|done|lia].
Qed.

End KeyBehaviour.

(** ** The checksum verifier of downloads *)
Module VerifierFacts.
Section VerifierFacts.
Context `{Crypto}.
Import StreamHelper.

(** The verifier hands every octet on and fails at the end exactly when
    the digest of all it has hashed differs from the expected one. *)
Lemma through_verifier_spec (expected : jsstring) (chunks : list (list byte)) (v : verifier) :
  through_verifier expected chunks v
  = {| passed_on := concat chunks;
       integrity_failure :=
         negb (bool_decide (Buffer.toString_hex (sha256 (v_hash v ++ concat chunks))
                            = expected)) |}.
Proof.
  revert v. induction chunks as [|chunk chunks IH]; intros v.
  - cbn [through_verifier concat]. unfold verifier_flush. rewrite app_nil_r.
    case_bool_decide as E; case_bool_decide as E'; try done; by destruct E.
  - cbn [through_verifier verifier_transform concat]. rewrite IH.
    cbn [passed_on integrity_failure v_hash].
    by rewrite PipelineFacts.concat_push, <- app_assoc.
Qed.

End VerifierFacts.
End VerifierFacts.

Section DownloadBehaviour.
Context `{Crypto}.
Import LocalStorageStrategy Spec StorageFacts Behaviour BehaviourFacts StreamHelper.

(** X17.  Upload, download, verification: when a source is stored, the
    stream read back from the object passes the checksum verifier made
    from the checksum the upload returned, whatever the chunks it
    arrives in; a verifier made from any other checksum hands the same
    octets on and fails only at the end. *)
Theorem X17_download_verifies_upload_checksum (cfg : config) (self : this)
    (inputStream : list (list byte)) (filename : jsstring) (w : world) :
  tag_is_128_bits ->
  constructor cfg = Ok self -> length (key self) = 32 ->
  lets_through (concat inputStream) = true ->
  exists stored w' stream,
    saveLocalStream self inputStream filename w = (Ok stored, w')
    /\ getStream self filename w' = Ok stream
    /\ failure stream = None
    /\ forall chunks expected,
         concat chunks = emitted stream ->
         through_verifier expected chunks new_verifier
         = {| passed_on := concat inputStream;
              integrity_failure := negb (bool_decide (checksum stored = expected)) |}.
Proof.
  intros Htag [Hivl Htagl]%constructor_lengths Hkey Hlet.
  eexists _, _, _. split; [by apply save_let_through|]. split.
  - eapply getStream_container; [done..|apply (randomBytes_length 16 w)|].
    cbn [with_files files]. by rewrite lookup_insert_eq.
  - split; [reflexivity|]. intros chunks expected Hchunks. cbn [emitted] in Hchunks.
    rewrite VerifierFacts.through_verifier_spec, Hchunks. reflexivity.
Qed.

End DownloadBehaviour.

(** ** [sanitize] *)
Module SanitizeFacts.
Section SanitizeFacts.
Context {number : Type}.
Variable toLowerCase : jsstring -> jsstring.
Import Sanitizer.

Local Abbreviation value := (@value number).
Local Abbreviation entry_ok :=
  (fun entry : jsstring * value =>
     implb (isSensitive toLowerCase (fst entry)) (is_redacted (snd entry))
     && nothing_sensitive_left toLowerCase (snd entry) = true).

Lemma primitive_nothing_sensitive (v : value) :
  is_object v = false -> nothing_sensitive_left toLowerCase v = true.
Proof. by destruct v. Qed.

Lemma set_entry_Forall (P : jsstring * value -> Prop) key (v : value) entries :
  P (key, v) -> Forall P entries -> Forall P (set_entry key v entries).
Proof.
  intros Hv. induction 1 as [|[k old] entries Hk Hall IH]; cbn [set_entry].
  - by repeat constructor.
  - case_bool_decide as E; [subst k|]; by constructor.
Qed.

Lemma assign_Forall (P : jsstring * value -> Prop) key (v : value) entries :
  P (key, v) -> Forall P entries -> Forall P (assign key v entries).
Proof.
  intros Hv Hall. unfold assign. case_bool_decide; [done|]. by apply set_entry_Forall.
Qed.

(** Whatever the depth, the result of [sanitize] has the redaction marker
    under every sensitive key. *)
Lemma sanitize_nothing_sensitive_left (data : value) :
  forall depth, nothing_sensitive_left toLowerCase (sanitize toLowerCase depth data) = true.
Proof.
  induction data as [| |b|n|s|items IH|entries IH] using value_ind; intros depth;
    cbn [sanitize]; case_bool_decide; try reflexivity.
  - cbn [nothing_sensitive_left]. apply forallb_forall.
    intros x (y & <- & Hy)%in_map_iff.
    rewrite List.Forall_forall in IH. by apply IH.
  - cbn [nothing_sensitive_left]. apply forallb_forall, List.Forall_forall.
    assert (Forall entry_ok ([] : list (jsstring * value))) as Hacc by constructor.
    revert Hacc. generalize ([] : list (jsstring * value)).
    induction IH as [|[key v] entries Hv _ IHentries]; intros acc Hacc; [done|].
    cbn [foldl]. apply IHentries. cbn [snd] in Hv.
    destruct (isSensitive toLowerCase key) eqn:Ekey.
    + apply assign_Forall; [|done]. cbv beta. cbn [fst snd]. rewrite Ekey.
      cbn [implb is_redacted nothing_sensitive_left andb].
      by rewrite bool_decide_eq_true_2.
    + destruct (is_object v) eqn:Eobj.
      * apply assign_Forall; [|done]. cbv beta. cbn [fst snd]. rewrite Ekey.
        cbn [implb andb]. apply Hv.
      * apply assign_Forall; [|done]. cbv beta. cbn [fst snd]. rewrite Ekey.
        cbn [implb andb]. by apply primitive_nothing_sensitive.
Qed.

Lemma set_entry_fresh key (v : value) entries :
  key ∉ map fst entries -> set_entry key v entries = entries ++ [(key, v)].
Proof.
  induction entries as [|[k old] entries IH]; intros Hfresh; [reflexivity|].
  cbn [set_entry]. cbn [map fst] in Hfresh. apply not_elem_of_cons in Hfresh as [Hne Hfresh].
  rewrite bool_decide_eq_false_2 by done. cbn [app]. f_equal. by apply IH.
Qed.

(** On data with nothing to do [sanitize] is the identity. *)
Lemma sanitize_plain (data : value) :
  forall depth, plain toLowerCase depth data = true -> sanitize toLowerCase depth data = data.
Proof.
  induction data as [| |b|n|s|items IH|entries IH] using value_ind; intros depth;
    cbn [plain sanitize]; intros [Hdepth Hrest]%andb_true_iff;
    apply bool_decide_eq_true in Hdepth;
    (rewrite bool_decide_eq_false_2 by lia); try reflexivity.
  - f_equal. rewrite <- (map_id items) at 2. apply map_ext_in.
    intros x Hx. rewrite List.Forall_forall in IH. apply IH; [done|].
    rewrite forallb_forall in Hrest. by apply Hrest.
  - f_equal. apply andb_true_iff in Hrest as [Hnodup Hrest].
    apply bool_decide_eq_true in Hnodup.
    enough (forall acc, (forall k, k ∈ map fst acc -> k ∉ map fst entries) ->
              foldl (fun sanitized entry =>
                       let '(key, v) := entry in
                       if isSensitive toLowerCase key
                       then assign key (VString REDACTED) sanitized
                       else if is_object v
                            then assign key (sanitize toLowerCase (S depth) v) sanitized
                            else assign key v sanitized) acc entries
              = acc ++ entries) as Hfold.
    { apply (Hfold []). intros k Hk. cbn in Hk. by apply elem_of_nil in Hk. }
    clear -IH Hnodup Hrest.
    induction IH as [|[key v] entries Hv _ IHentries]; intros acc Hacc.
    + cbn. by rewrite app_nil_r.
    + cbn [foldl]. cbn [forallb fst snd] in Hrest.
      apply andb_true_iff in Hrest as [Hentry Hrest].
      apply andb_true_iff in Hentry as [Hentry Hvalue].
      apply andb_true_iff in Hentry as [Hsens Hproto].
      apply negb_true_iff in Hsens. apply negb_true_iff, bool_decide_eq_false in Hproto.
      cbn [map fst] in Hnodup. apply NoDup_cons in Hnodup as [Hfresh Hnodup].
      rewrite Hsens.
      assert ((if is_object v
               then assign key (sanitize toLowerCase (S depth) v) acc
               else assign key v acc) = acc ++ [(key, v)]) as ->.
      { assert (key ∉ map fst acc) as Hnew.
        { intros Hin. apply (Hacc key Hin). cbn [map fst]. left. }
        cbn [snd] in Hv. destruct (is_object v).
        - rewrite Hv by done. unfold assign. rewrite bool_decide_eq_false_2 by done.
          by apply set_entry_fresh.
        - unfold assign. rewrite bool_decide_eq_false_2 by done.
          by apply set_entry_fresh. }
      rewrite IHentries; [by rewrite <- app_assoc|done|done|].
      intros k Hk Hin. rewrite map_app in Hk. cbn [map fst] in Hk.
      apply elem_of_app in Hk as [Hk|Hk].
      * apply (Hacc k Hk). cbn [map fst]. by right.
      * apply list_elem_of_singleton in Hk. by subst k.
Qed.

End SanitizeFacts.
End SanitizeFacts.

Section SanitizeBehaviour.
Context {number : Type}.
Variable toLowerCase : jsstring -> jsstring.
Import Sanitizer.

(** X18.  Redaction is complete: in what [sanitizeAuditDetails] and
    [sanitize] return, every entry whose key is a sensitive field name
    carries the redaction marker, at every level of nesting and
    whatever the depth the call starts at. *)
Theorem X18_sanitize_redacts_every_sensitive_entry (details : @value number) (depth : nat) :
  nothing_sensitive_left toLowerCase (sanitizeAuditDetails toLowerCase details) = true
  /\ nothing_sensitive_left toLowerCase (sanitize toLowerCase depth details) = true.
Proof.
  split; [|apply SanitizeFacts.sanitize_nothing_sensitive_left].
  unfold sanitizeAuditDetails. destruct (is_object details) eqn:E.
  - apply SanitizeFacts.sanitize_nothing_sensitive_left.
  - by apply SanitizeFacts.primitive_nothing_sensitive.
Qed.

(** X19.  Nothing else is touched: data within the depth limit whose
    objects have no sensitive key comes back from [sanitizeAuditDetails]
    as it went in, keys, order and values. *)
Theorem X19_sanitize_keeps_plain_data (details : @value number) :
  plain toLowerCase 0 details = true ->
  sanitizeAuditDetails toLowerCase details = details.
Proof.
  intros Hplain. unfold sanitizeAuditDetails.
  destruct (is_object details); [|reflexivity].
  by apply SanitizeFacts.sanitize_plain.
Qed.

End SanitizeBehaviour.

(** ** [anonymizeIp] *)
Module IpFacts.
Import Sanitizer.

Lemma includes_spec (c : code_unit) (s : jsstring) :
  includes c s = true <-> c ∈ s.
Proof.
  unfold includes. rewrite existsb_exists. split.
  - intros (x & Hin & ->%N.eqb_eq). by apply list_elem_of_In.
  - intros Hin. exists c. split; [by apply list_elem_of_In|apply N.eqb_refl].
Qed.

Lemma includes_false (c : code_unit) (s : jsstring) :
  Forall (fun x => x <> c) s -> includes c s = false.
Proof.
  intros Hall. apply not_true_is_false. intros Hin%includes_spec.
  rewrite List.Forall_forall in Hall. apply (Hall c); [by apply list_elem_of_In|done].
Qed.

(** Joining fields that are free of the separator and splitting again
    gives the fields back. *)
Lemma split_join (sep : code_unit) (parts : list jsstring) :
  parts <> [] ->
  Forall (Forall (fun x => x <> sep)) parts ->
  JsString.split sep (join sep parts) = parts.
Proof.
  intros Hne Hall. induction Hall as [|p parts Hp Hparts IH]; [done|].
  destruct parts as [|q parts].
  - cbn [join]. by apply BufferFacts.split_no_sep.
  - cbn [join]. fold (join sep (q :: parts)).
    rewrite BufferFacts.split_app_sep by done. f_equal. by apply IH.
Qed.

Lemma join_free (sep c : code_unit) (parts : list jsstring) :
  c <> sep -> Forall (Forall (fun x => x <> c)) parts ->
  Forall (fun x => x <> c) (join sep parts).
Proof.
  intros Hne Hall. induction Hall as [|p parts Hp Hparts IH]; [constructor|].
  destruct parts as [|q parts]; [done|].
  cbn [join]. fold (join sep (q :: parts)).
  apply Forall_app. split; [done|]. constructor; [by intros ->|done].
Qed.

Lemma join_includes_sep (sep : code_unit) (p q : jsstring) (parts : list jsstring) :
  includes sep (join sep (p :: q :: parts)) = true.
Proof.
  apply includes_spec. cbn [join]. apply elem_of_app. right. left.
Qed.

End IpFacts.

(** X20.  IPv4: of an address of four dot-separated fields [anonymizeIp]
    keeps the first three and puts ["0"] for the fourth, so that two
    addresses that differ only in the fourth field become the same
    text. *)
Theorem X20_anonymizeIp_drops_the_fourth_field (a b c d : jsstring) :
  Forall (Forall (fun x => x <> Sanitizer.dot)) [a; b; c; d] ->
  Sanitizer.anonymizeIp (Sanitizer.join Sanitizer.dot [a; b; c; d])
  = Sanitizer.join Sanitizer.dot [a; b; c; Sanitizer.lit "0"].
Proof.
  intros Hfields. unfold Sanitizer.anonymizeIp.
  rewrite bool_decide_eq_false_2 by (cbn; by destruct a).
  rewrite IpFacts.join_includes_sep, IpFacts.split_join by done.
  reflexivity.
Qed.

(** X21.  IPv6: of a dot-free address of at least three colon-separated
    fields [anonymizeIp] keeps the first three and appends ["::"];
    nothing after the third field reaches the result, and an address of
    exactly three fields, such as a compressed one, keeps all of them. *)
Theorem X21_anonymizeIp_keeps_three_groups (g1 g2 g3 : jsstring) (others : list jsstring) :
  Forall (Forall (fun x => x <> JsString.colon /\ x <> Sanitizer.dot))
         (g1 :: g2 :: g3 :: others) ->
  Sanitizer.anonymizeIp (Sanitizer.join JsString.colon (g1 :: g2 :: g3 :: others))
  = Sanitizer.join JsString.colon [g1; g2; g3] ++ Sanitizer.lit "::".
Proof.
  intros Hfields.
  assert (Forall (Forall (fun x => x <> JsString.colon)) (g1 :: g2 :: g3 :: others)) as Hcolon.
  { eapply Forall_impl; [exact Hfields|]. intros g Hg.
    eapply Forall_impl; [exact Hg|]. by intros x [? _]. }
  assert (Forall (Forall (fun x => x <> Sanitizer.dot)) (g1 :: g2 :: g3 :: others)) as Hdot.
  { eapply Forall_impl; [exact Hfields|]. intros g Hg.
    eapply Forall_impl; [exact Hg|]. by intros x [_ ?]. }
  unfold Sanitizer.anonymizeIp.
  rewrite bool_decide_eq_false_2 by (cbn; by destruct g1).
  rewrite (IpFacts.includes_false Sanitizer.dot) by (by apply IpFacts.join_free).
  rewrite IpFacts.join_includes_sep, IpFacts.split_join by done.
  rewrite bool_decide_eq_true_2 by (cbn; lia). reflexivity.
Qed.

(** ** [sanitizeFilename] and [generateStorageKey] *)
Module FileSanitizerFacts.
Import FileSanitizer.

Lemma drop_while_sublist (p : code_unit -> bool) (s : jsstring) :
  forall c, c ∈ drop_while p s -> c ∈ s.
Proof.
  induction s as [|x s IH]; intros c; cbn [drop_while]; [done|].
  destruct (p x); [|done]. intros Hc. right. by apply IH.
Qed.

Lemma drop_while_end_sublist (p : code_unit -> bool) (s : jsstring) :
  forall c, c ∈ drop_while_end p s -> c ∈ s.
Proof.
  intros c Hc. unfold drop_while_end in Hc.
  rewrite elem_of_reverse in Hc. apply drop_while_sublist in Hc.
  by rewrite elem_of_reverse in Hc.
Qed.

Lemma collapse_underscores_sublist (s : jsstring) :
  forall c, c ∈ collapse_underscores s -> c ∈ s.
Proof.
  induction s as [|x s IH]; intros c; [done|]. cbn [collapse_underscores].
  destruct (x =? underscore)%N.
  - destruct s as [|d s]; [done|]. destruct (d =? underscore)%N.
    + intros Hc. right. by apply IH.
    + intros [->|Hc]%elem_of_cons; [left|right; by apply IH].
  - intros [->|Hc]%elem_of_cons; [left|right; by apply IH].
Qed.

Lemma unnamed_file_allowed : Forall (fun c => allowed c = true) unnamed_file.
Proof. unfold unnamed_file, Sanitizer.lit. cbn. repeat constructor. Qed.

Section Sanitized.
Variable extname : jsstring -> jsstring.
Variable basename : jsstring -> jsstring -> jsstring.
Hypothesis extname_of_path : forall path c, c ∈ extname path -> c ∈ path.
Hypothesis basename_of_path : forall path ext c, c ∈ basename path ext -> c ∈ path.

(** Only allowed characters are left in a sanitized name. *)
Lemma sanitizeFilename_allowed (filename : jsstring) :
  Forall (fun c => allowed c = true) (sanitizeFilename extname basename filename).
Proof.
  unfold sanitizeFilename. case_bool_decide as Hempty; [apply unnamed_file_allowed|].
  set (cleaned := map (fun c => if allowed c then c else underscore) _).
  set (edges := drop_while_end is_edge_character _).
  assert (Forall (fun c => allowed c = true) cleaned) as Hcleaned.
  { subst cleaned. apply Forall_map, Forall_forall. intros c _. cbn.
    destruct (allowed c) eqn:E; [exact E|reflexivity]. }
  assert (forall c, c ∈ edges -> allowed c = true) as Hedges.
  { intros c Hc. subst edges. unfold trim in Hc.
    apply drop_while_end_sublist, drop_while_sublist in Hc.
    apply drop_while_end_sublist, drop_while_sublist in Hc.
    apply collapse_underscores_sublist in Hc.
    rewrite Forall_forall in Hcleaned. by apply Hcleaned. }
  case_bool_decide as Hresult; [apply unnamed_file_allowed|].
  apply Forall_forall. intros c [Hc|Hc]%elem_of_app.
  - apply Hedges, (basename_of_path _ (extname edges)).
    apply elem_of_take in Hc as (i & Hi & _). by eapply list_elem_of_lookup_2.
  - by apply Hedges, extname_of_path.
Qed.

End Sanitized.

End FileSanitizerFacts.

Section FileSanitizerBehaviour.
Variable extname : jsstring -> jsstring.
Variable basename : jsstring -> jsstring -> jsstring.
(** Both functions return a piece of the path they are given. *)
Hypothesis extname_of_path : forall path c, c ∈ extname path -> c ∈ path.
Hypothesis basename_of_path : forall path ext c, c ∈ basename path ext -> c ∈ path.
Import FileSanitizer FileSanitizerFacts.

(** X22.  Whatever name a client sends, [sanitizeFilename] returns a
    non-empty name made of letters, digits, dot, underscore, dash and
    space only: no NUL, no slash or backslash, nothing else survives. *)
Theorem X22_sanitizeFilename_is_safe (filename : jsstring) :
  sanitizeFilename extname basename filename <> []
  /\ Forall (fun c => allowed c = true) (sanitizeFilename extname basename filename)
  /\ (0%N ∉ sanitizeFilename extname basename filename)
  /\ (47%N ∉ sanitizeFilename extname basename filename)
  /\ (92%N ∉ sanitizeFilename extname basename filename).
Proof.
  pose proof (sanitizeFilename_allowed extname basename
                extname_of_path basename_of_path filename) as Hall.
  split.
  - unfold sanitizeFilename. case_bool_decide; [done|].
    cbv zeta. by case_bool_decide.
  - split; [exact Hall|]. rewrite Forall_forall in Hall.
    repeat split; intros Hin; apply Hall in Hin; discriminate.
Qed.

(** X23.  A storage key generated for an upload, made of a decimal
    timestamp, a UUID of hexadecimal digits and dashes and the sanitized
    name, contains no NUL, slash or backslash and is neither ["."] nor
    [".."]: as a file name it stays in the upload directory. *)
Theorem X23_storage_keys_have_no_separator (timestamp uuid originalFilename : jsstring) :
  Forall (fun c => allowed c = true) timestamp ->
  Forall (fun c => allowed c = true) uuid ->
  let storageKey := generateStorageKey extname basename timestamp uuid originalFilename in
  Forall (fun c => allowed c = true) storageKey
  /\ (0%N ∉ storageKey) /\ (47%N ∉ storageKey) /\ (92%N ∉ storageKey)
  /\ dash ∈ storageKey.
Proof.
  intros Hts Huuid storageKey.
  pose proof (sanitizeFilename_allowed extname basename
                extname_of_path basename_of_path originalFilename) as Hname.
  assert (Forall (fun c => allowed c = true) storageKey) as Hall.
  { subst storageKey. unfold generateStorageKey. cbn [Sanitizer.join].
    apply Forall_app. split; [done|]. constructor; [done|].
    apply Forall_app. split; [done|]. by constructor. }
  split; [exact Hall|].
  rewrite Forall_forall in Hall.
  repeat split; try (intros Hin; apply Hall in Hin; discriminate).
  subst storageKey. unfold generateStorageKey. cbn [Sanitizer.join].
  apply elem_of_app. right. left.
Qed.

End FileSanitizerBehaviour.

(** ** Storage after a change of the first key *)
Section StorageRotation.
Context `{Crypto}.
Import LocalStorageStrategy Spec StorageFacts Behaviour BehaviourFacts.

(** X24.  Storage has no fallback to earlier keys: an object stored by a
    strategy constructed from one configuration and read by a strategy
    constructed from a configuration with another first key comes out
    decrypted under the wrong key, and the stream then fails with the
    authentication error, as long as the two keys give different tags.
    For a source without octets the failure comes before the caller has
    the stream: it is an uncaught exception of the process, and the
    consumer observes neither end nor error. *)
Theorem X24_storage_has_no_key_fallback (cfg cfg' : config) (self self' : this)
    (inputStream : list (list byte)) (filename : jsstring) (w : world) :
  tag_is_128_bits ->
  constructor cfg = Ok self -> constructor cfg' = Ok self' ->
  length (key self) = 32 -> length (key self') = 32 ->
  lets_through (concat inputStream) = true ->
  let iv := fst (randomBytes 16 w) in
  let ct := Gcm.xor_stream (key self) iv 0 (concat inputStream) in
  gcm_tag (key self') iv ct <> gcm_tag (key self) iv ct ->
  getStream self' filename (snd (saveLocalStream self inputStream filename w))
  = Ok {| emitted := Gcm.xor_stream (key self') iv 0 ct;
          failure := Some (if bool_decide (concat inputStream = [])
                           then UncaughtException AuthenticationFailed
                           else AuthenticationFailed) |}.
Proof.
  intros Htag [Hivl _]%constructor_lengths [Hivl' Htagl']%constructor_lengths
    Hkey Hkey' Hacc iv ct Hdiff.
  rewrite (save_let_through self inputStream filename w Hivl Hkey Hacc).
  cbn [snd].
  assert (Hiv : length iv = 16) by apply randomBytes_length.
  rewrite (getStream_layout self' filename _ iv ct (gcm_tag (key self) iv ct)
             Hivl' Htagl'); [| |done|by rewrite Htag].
  - unfold Gcm.createDecipheriv. cbn [key_bytes].
    rewrite bool_decide_eq_false_2 by lia.
    rewrite bool_decide_eq_true_2 by done. cbn [bind].
    unfold Gcm.setAuthTag. rewrite Htag, GcmFacts.valid_gcm_tag_length_16. cbn [bind].
    erewrite pipe_push by reflexivity. cbn [Gcm.d_key Gcm.d_iv].
    rewrite Htag, take_ge by (rewrite Htag; lia).
    rewrite bool_decide_eq_false_2 by (intros Heq; by apply Hdiff).
    subst ct.
    assert (bool_decide (Gcm.xor_stream (key self) iv 0 (concat inputStream) = [])
            = bool_decide (concat inputStream = [])) as ->; [|done].
    apply bool_decide_ext. split.
    + apply GcmFacts.xor_stream_nil_inv.
    + intros ->. apply GcmFacts.xor_stream_nil.
  - cbn [with_files files]. by rewrite lookup_insert_eq.
Qed.

End StorageRotation.

(** ** The further properties on concrete values *)
Module ExamplesFacts.

Lemma from_last_dot_suffix (s e : jsstring) :
  Examples.from_last_dot s = Some e -> e `suffix_of` s.
Proof.
  revert e. induction s as [|c rest IH]; intros e; cbn; [done|].
  destruct (Examples.from_last_dot rest) as [e'|].
  - intros [= <-]. by apply suffix_cons_r, IH.
  - destruct (c =? 46)%N; [|done]. by intros [= <-].
Qed.

Lemma extname_of_path (path : jsstring) (c : code_unit) :
  c ∈ Examples.extname path -> c ∈ path.
Proof.
  destruct path as [|c0 rest]; cbn; [done|].
  destruct (Examples.from_last_dot rest) as [e|] eqn:He; cbn.
  - intros Hc. apply from_last_dot_suffix in He as [k ->].
    apply elem_of_cons. right. apply elem_of_app. by right.
  - by intros ?%elem_of_nil.
Qed.

Lemma basename_of_path (path ext : jsstring) (c : code_unit) :
  c ∈ Examples.basename path ext -> c ∈ path.
Proof.
  unfold Examples.basename. case_bool_decide; [|done].
  intros (i & Hi & _)%elem_of_take. by eapply list_elem_of_lookup_2.
Qed.

End ExamplesFacts.

(** X1 on the ZIP source in two chunks. *)
Lemma X1_witness :
  @LocalStorageStrategy.saveLocalStream Sample.crypto Sample.self
    Examples.zip_source Sample.name Sample.w0
  = @Behaviour.save_outcome Sample.crypto Sample.self
      (concat Examples.zip_source) Sample.name Sample.w0.
Proof.
  apply (@X1_save_depends_on_octets_only Sample.crypto Sample.cfg).
  reflexivity.
Defined.



(** X4 on the ZIP source: 37 octets are stored. *)
Lemma X4_witness :
  let w' := snd (@LocalStorageStrategy.saveLocalStream Sample.crypto Sample.self
                   Examples.zip_source Sample.name Sample.w0) in
  LocalStorageStrategy.getStats Sample.name w'
  = if Behaviour.lets_through (concat Examples.zip_source)
    then Ok (32 + length (concat Examples.zip_source))
    else Throw ENOENT.
Proof.
  apply (@X4_size_after_upload Sample.crypto Sample.cfg).
  - exact SampleFacts.sample_tag_is_128_bits.
  - reflexivity.
  - reflexivity.
Defined.

(** X5 on the key of 64 characters that ends in [g]. *)
Lemma X5_witness :
  fst (@LocalStorageStrategy.saveLocalStream Sample.crypto Examples.self_not_hex
         Examples.zip_source Sample.name Sample.w_short)
  = Throw InvalidKeyLength
  /\ files (snd (@LocalStorageStrategy.saveLocalStream Sample.crypto Examples.self_not_hex
                   Examples.zip_source Sample.name Sample.w_short))
     = files Sample.w_short
  /\ forall name content,
       files Sample.w_short !! name = Some content -> 32 <= length content ->
       @LocalStorageStrategy.getStream Sample.crypto Examples.self_not_hex name Sample.w_short
       = Throw InvalidKeyLength.
Proof.
  apply (@X5_unusable_key Sample.crypto Examples.cfg_not_hex).
  - reflexivity.
  - vm_compute. lia.
Defined.


(** X7 on two containers whose tag is 16 zeros, one with an octet of
    ciphertext and one without. *)
Lemma X7_witness :
  @LocalStorageStrategy.getStream Sample.crypto Sample.self Sample.name Examples.w_zero_tag
  = Ok {| emitted := @Gcm.xor_stream Sample.crypto (LocalStorageStrategy.key Sample.self)
                       (replicate 16 Byte.x07) 0 [Byte.x41];
          failure := if bool_decide (replicate 16 Byte.x00
                                     = @gcm_tag Sample.crypto (LocalStorageStrategy.key Sample.self)
                                         (replicate 16 Byte.x07) [Byte.x41])
                     then None
                     else Some (if bool_decide ([Byte.x41] = [])
                                then UncaughtException AuthenticationFailed
                                else AuthenticationFailed) |}
  /\ @LocalStorageStrategy.getStream Sample.crypto Sample.self Examples.second_name
       Examples.w_zero_tag
     = Ok {| emitted := @Gcm.xor_stream Sample.crypto (LocalStorageStrategy.key Sample.self)
                          (replicate 16 Byte.x07) 0 [];
             failure := if bool_decide (replicate 16 Byte.x00
                                        = @gcm_tag Sample.crypto
                                            (LocalStorageStrategy.key Sample.self)
                                            (replicate 16 Byte.x07) [])
                        then None
                        else Some (if bool_decide (@nil byte = [])
                                   then UncaughtException AuthenticationFailed
                                   else AuthenticationFailed) |}.
Proof.
  split.
  - apply (@X7_tag_decides_read Sample.crypto Sample.cfg).
    + exact SampleFacts.sample_tag_is_128_bits.
    + reflexivity.
    + reflexivity.
    + reflexivity.
    + reflexivity.
    + reflexivity.
  - apply (@X7_tag_decides_read Sample.crypto Sample.cfg).
    + exact SampleFacts.sample_tag_is_128_bits.
    + reflexivity.
    + reflexivity.
    + reflexivity.
    + reflexivity.
    + reflexivity.
Defined.

(** X10 on the sample token. *)
Lemma X10_witness :
  exists nonce tag ct,
    Sample.token = nonce ++ [JsString.colon] ++ tag ++ [JsString.colon] ++ ct
    /\ JsString.split JsString.colon Sample.token = [nonce; tag; ct]
    /\ length nonce = 32 /\ length tag = 32
    /\ length ct = 2 * length (Buffer.from_utf8 (Sample.stringify Sample.LTrue))
    /\ Forall (fun c => Behaviour.is_lower_hex_digit c = true) (nonce ++ tag ++ ct).
Proof.
  apply (@X10_token_format Sample.crypto Sample.json Sample.cfg Sample.LTrue Sample.token).
  - exact SampleFacts.sample_tag_is_128_bits.
  - reflexivity.
  - unfold Sample.cfg, Sample.js. simpl.
    repeat (constructor; [reflexivity|]). constructor.
  - reflexivity.
Defined.

(** X11 on the tokens of [true] and [false]. *)
Lemma X11_witness :
  zip_with Buffer.bxor (Behaviour.ciphertext_field Sample.token)
                       (Behaviour.ciphertext_field Examples.token_false)
  = zip_with Buffer.bxor (Buffer.from_utf8 (Sample.stringify Sample.LTrue))
                         (Buffer.from_utf8 (Sample.stringify Sample.LFalse)).
Proof.
  apply (@X11_tokens_share_the_key_stream Sample.crypto Sample.json Sample.cfg
           Sample.LTrue Sample.LFalse).
  - reflexivity.
  - reflexivity.
Defined.

(** X12 on the sample token with a tag of 16 zeros. *)
Lemma X12_witness :
  @Encryption.decrypt Sample.crypto Sample.json Sample.cfg
    (Behaviour.token_of Examples.token_iv (replicate 16 Byte.x00) Examples.token_ct)
  = Sample.LNull.
Proof.
  apply (@X12_forged_tag_is_refused Sample.crypto Sample.json Sample.cfg Sample.hex_key
           Sample.LTrue Examples.token_iv Examples.token_tag Examples.token_ct).
  - exact SampleFacts.sample_tag_is_128_bits.
  - reflexivity.
  - reflexivity.
  - reflexivity.
  - intros Htag. vm_compute in Htag. discriminate Htag.
Defined.

(** X13 on the sample token and the rotated configuration. *)
Lemma X13_witness :
  @Encryption.decrypt Sample.crypto Sample.json Sample.cfg_rotated
    (Behaviour.token_of Examples.token_iv Examples.token_tag Examples.token_ct)
  = Sample.LTrue.
Proof.
  apply (@X13_token_survives_rotation Sample.crypto Sample.json Sample.cfg Sample.cfg_rotated
           Sample.hex_key [] [Sample.other_key] []).
  - exact SampleFacts.sample_tag_is_128_bits.
  - exact SampleFacts.sample_json_round_trip.
  - reflexivity.
  - reflexivity.
  - reflexivity.
  - intros K' ->%list_elem_of_singleton. vm_compute. reflexivity.
Defined.

(** X14 on a key of 32 digits. *)
Lemma X14_witness :
  LocalStorageStrategy._parseKey (KeyString Examples.key_raw_32)
  = key_bytes (Encryption.parsed_key Examples.key_raw_32)
  /\ length (key_bytes (Encryption.parsed_key Examples.key_raw_32)) = 32.
Proof.
  apply (X14_raw_32_character_key Examples.key_raw_32).
  - reflexivity.
  - unfold Examples.key_raw_32, Sample.js. simpl.
    repeat (constructor; [reflexivity|]). constructor.
Defined.

(** X15 on the key of 64 characters that ends in [g]. *)
Lemma X15_witness :
  length (LocalStorageStrategy.key Examples.self_not_hex) < 32
  /\ (forall inputStream filename w,
        fst (@LocalStorageStrategy.saveLocalStream Sample.crypto Examples.self_not_hex
               inputStream filename w)
        = Throw InvalidKeyLength)
  /\ (forall p, @Encryption.encrypt Sample.crypto Sample.json Examples.cfg_not_hex p
                = Throw InvalidKeyLength).
Proof.
  apply (@X15_key_of_64_characters_not_all_hex Sample.crypto Sample.json
           Examples.cfg_not_hex Examples.self_not_hex Examples.key_not_hex []).
  - reflexivity.
  - reflexivity.
  - reflexivity.
  - reflexivity.
  - intros Hiv. vm_compute in Hiv. discriminate Hiv.
Defined.

(** X16 on the passphrase that starts with U+00E9. *)
Lemma X16_witness :
  32 < length (LocalStorageStrategy.key Examples.self_non_ascii)
  /\ forall inputStream filename w,
       fst (@LocalStorageStrategy.saveLocalStream Sample.crypto Examples.self_non_ascii
              inputStream filename w)
       = Throw InvalidKeyLength.
Proof.
  apply (@X16_passphrase_with_non_ascii_character Sample.crypto
           Examples.cfg_non_ascii Examples.self_non_ascii Examples.key_non_ascii []).
  - reflexivity.
  - vm_compute. lia.
  - unfold Examples.key_non_ascii. simpl. apply Exists_cons_hd. lia.
  - reflexivity.
Defined.

(** X17 on the ZIP source. *)
Lemma X17_witness :
  exists stored w' stream,
    @LocalStorageStrategy.saveLocalStream Sample.crypto Sample.self
      Examples.zip_source Sample.name Sample.w0 = (Ok stored, w')
    /\ @LocalStorageStrategy.getStream Sample.crypto Sample.self Sample.name w' = Ok stream
    /\ failure stream = None
    /\ forall chunks expected,
         concat chunks = emitted stream ->
         @StreamHelper.through_verifier Sample.crypto expected chunks StreamHelper.new_verifier
         = {| StreamHelper.passed_on := concat Examples.zip_source;
              StreamHelper.integrity_failure :=
                negb (bool_decide (LocalStorageStrategy.checksum stored = expected)) |}.
Proof.
  apply (@X17_download_verifies_upload_checksum Sample.crypto Sample.cfg).
  - exact SampleFacts.sample_tag_is_128_bits.
  - reflexivity.
  - reflexivity.
  - reflexivity.
Defined.

(** X19 on details without a sensitive key. *)
Lemma X19_witness :
  Sanitizer.sanitizeAuditDetails Examples.lower Examples.plain_details
  = Examples.plain_details.
Proof.
  apply (X19_sanitize_keeps_plain_data Examples.lower Examples.plain_details).
  reflexivity.
Defined.

(** X20 on 192.168.1.77. *)
Lemma X20_witness :
  Sanitizer.anonymizeIp
    (Sanitizer.join Sanitizer.dot
       [Sanitizer.lit "192"; Sanitizer.lit "168"; Sanitizer.lit "1"; Sanitizer.lit "77"])
  = Sanitizer.join Sanitizer.dot
      [Sanitizer.lit "192"; Sanitizer.lit "168"; Sanitizer.lit "1"; Sanitizer.lit "0"].
Proof.
  apply (X20_anonymizeIp_drops_the_fourth_field
           (Sanitizer.lit "192") (Sanitizer.lit "168") (Sanitizer.lit "1") (Sanitizer.lit "77")).
  vm_compute. repeat (constructor; try discriminate).
Defined.

(** X21 on 2001:db8:85a3:8a2e:7334. *)
Lemma X21_witness :
  Sanitizer.anonymizeIp
    (Sanitizer.join JsString.colon
       [Sanitizer.lit "2001"; Sanitizer.lit "db8"; Sanitizer.lit "85a3";
        Sanitizer.lit "8a2e"; Sanitizer.lit "7334"])
  = Sanitizer.join JsString.colon
      [Sanitizer.lit "2001"; Sanitizer.lit "db8"; Sanitizer.lit "85a3"]
    ++ Sanitizer.lit "::".
Proof.
  apply (X21_anonymizeIp_keeps_three_groups
           (Sanitizer.lit "2001") (Sanitizer.lit "db8") (Sanitizer.lit "85a3")
           [Sanitizer.lit "8a2e"; Sanitizer.lit "7334"]).
  vm_compute. repeat (constructor; try discriminate).
Defined.

(** X22 on a name that tries to leave the directory. *)
Lemma X22_witness :
  let safe := FileSanitizer.sanitizeFilename Examples.extname Examples.basename
                (Sample.js "../../etc/pass wd?.tar.gz") in
  safe <> []
  /\ Forall (fun c => FileSanitizer.allowed c = true) safe
  /\ (0%N ∉ safe) /\ (47%N ∉ safe) /\ (92%N ∉ safe).
Proof.
  apply (X22_sanitizeFilename_is_safe Examples.extname Examples.basename).
  - exact ExamplesFacts.extname_of_path.
  - exact ExamplesFacts.basename_of_path.
Defined.

(** X23 on a timestamp, a UUID and the same name. *)
Lemma X23_witness :
  let storageKey :=
    FileSanitizer.generateStorageKey Examples.extname Examples.basename
      (Sample.js "1730548800000") (Sample.js "3f2b8c1e-9a4d-4e6f-8b7a-0c1d2e3f4a5b")
      (Sample.js "../../etc/pass wd?.tar.gz") in
  Forall (fun c => FileSanitizer.allowed c = true) storageKey
  /\ (0%N ∉ storageKey) /\ (47%N ∉ storageKey) /\ (92%N ∉ storageKey)
  /\ FileSanitizer.dash ∈ storageKey.
Proof.
  apply (X23_storage_keys_have_no_separator Examples.extname Examples.basename).
  - exact ExamplesFacts.extname_of_path.
  - exact ExamplesFacts.basename_of_path.
  - unfold Sample.js. simpl. repeat (constructor; [reflexivity|]). constructor.
  - unfold Sample.js. simpl. repeat (constructor; [reflexivity|]). constructor.
Defined.

(** X24 on the ZIP source, stored under [Sample.hex_key] and read under
    [Sample.other_key]. *)
Lemma X24_witness :
  let iv := fst (randomBytes 16 Sample.w0) in
  let ct := @Gcm.xor_stream Sample.crypto (LocalStorageStrategy.key Sample.self) iv 0
              (concat Examples.zip_source) in
  @LocalStorageStrategy.getStream Sample.crypto Examples.self_other Sample.name
    (snd (@LocalStorageStrategy.saveLocalStream Sample.crypto Sample.self
            Examples.zip_source Sample.name Sample.w0))
  = Ok {| emitted := @Gcm.xor_stream Sample.crypto (LocalStorageStrategy.key Examples.self_other)
                       iv 0 ct;
          failure := Some (if bool_decide (concat Examples.zip_source = [])
                           then UncaughtException AuthenticationFailed
                           else AuthenticationFailed) |}.
Proof.
  apply (@X24_storage_has_no_key_fallback Sample.crypto Sample.cfg Examples.cfg_other).
  - exact SampleFacts.sample_tag_is_128_bits.
  - reflexivity.
  - reflexivity.
  - reflexivity.
  - reflexivity.
  - reflexivity.
  - intros Htag. vm_compute in Htag. discriminate Htag.
Defined.
